(** * mfe-sentry: canonical error events and capture gating

    A shallow embedding of [src/utils.ts] and of the [MFESentry] class,
    together with the properties the specification states about them.

    Layout: the JavaScript values the code handles ([JS]), regular
    expressions with the backtracking semantics of [String.prototype.match]
    ([Regex]), the Sentry event types, the functions of [utils.ts], the
    [MFESentry] class, and then the theorems. *)

From Stdlib Require Import String Ascii List ZArith NArith Bool Lia.
From Stdlib Require Import DecimalString DecimalPos.
Import ListNotations.
Open Scope string_scope.

#[local] Set Warnings "-register-all".

(** ** JavaScript values *)

Module JS.

(** A JavaScript string is a sequence of UTF-16 code units; an [ascii] is
    one code unit below 256. *)

(** [String.prototype.includes]. *)
Fixpoint includes (s sub : string) : bool :=
  String.prefix sub s ||
  match s with
  | EmptyString => false
  | String _ s' => includes s' sub
  end.

(** Numbers. Finite numbers are the integer-valued ones (line and column
    counts, [framesToPop], error codes); fractional values are not
    represented. *)
Inductive num : Type :=
| Int (z : Z)
| NaN
| Infinity (negative : bool).

(** Values of type [any]. An object is the bag of the properties that can be
    read from it (its own and the inherited ones, data properties only); a
    function is an object that [typeof] reports as ["function"]. Symbols and
    bigints are not represented. *)
Inductive any : Type :=
| undefined
| null
| boolean (b : bool)
| number (n : num)
| str (s : string)
| object (props : list (string * any))
| func (props : list (string * any)).

(** Completion of an evaluation: a value, or a thrown exception (named by
    its constructor, as in [TypeError]). *)
Inductive outcome (A : Type) : Type :=
| Returns (a : A)
| Throws (error : string).
Arguments Returns {A} a.
Arguments Throws {A} error.

Definition bind {A B} (m : outcome A) (k : A -> outcome B) : outcome B :=
  match m with
  | Returns a => k a
  | Throws e => Throws e
  end.

Notation "x <- m ;; k" := (bind m (fun x => k))
  (at level 61, m at next level, right associativity).

(** [try { return m } catch (e) { } return fallback] *)
Definition try_catch {A} (m : outcome A) (fallback : A) : A :=
  match m with
  | Returns a => a
  | Throws _ => fallback
  end.

(** ToBoolean. *)
Definition truthy (v : any) : bool :=
  match v with
  | undefined | null => false
  | boolean b => b
  | number (Int z) => negb (Z.eqb z 0)
  | number NaN => false
  | number (Infinity _) => true
  | str s => negb (String.eqb s "")
  | object _ | func _ => true
  end.

(** [a || b] on values. *)
Definition or_ (a b : any) : any := if truthy a then a else b.

Inductive type_name : Type :=
| t_undefined | t_object | t_boolean | t_number | t_string | t_function.

Definition typeof (v : any) : type_name :=
  match v with
  | undefined => t_undefined
  | null | object _ => t_object
  | boolean _ => t_boolean
  | number _ => t_number
  | str _ => t_string
  | func _ => t_function
  end.

Fixpoint lookup (p : string) (props : list (string * any)) : option any :=
  match props with
  | [] => None
  | (k, v) :: rest => if String.eqb k p then Some v else lookup p rest
  end.

(** [v.p]: a TypeError on [undefined] and [null]; the properties of the
    built-in prototypes of primitives are not represented, so a read from a
    primitive gives [undefined]. *)
Definition get (v : any) (p : string) : outcome any :=
  match v with
  | undefined | null => Throws "TypeError"
  | object props | func props =>
      Returns (match lookup p props with Some x => x | None => undefined end)
  | _ => Returns undefined
  end.

(** [p in v]: a TypeError when [v] is not an object. *)
Definition has (p : string) (v : any) : outcome bool :=
  match v with
  | object props | func props =>
      Returns (match lookup p props with Some _ => true | None => false end)
  | _ => Throws "TypeError"
  end.

(** [v === 'lit'] and [v === undefined]. *)
Definition is_str (v : any) (lit : string) : bool :=
  match v with
  | str s => String.eqb s lit
  | _ => false
  end.

Definition is_undefined (v : any) : bool :=
  match v with
  | undefined => true
  | _ => false
  end.


(** [Number::toString] in radix 10. It is the decimal numeral on the safe
    integers, and only there is [string_of_num] that conversion: beyond
    them ECMAScript prints the shortest digits that read back as the same
    Number, padded with zeros ([2^64] gives ["18446744073709552000"]), and
    in exponent notation from [10^21] on (["1e+21"]). *)
Definition string_of_num (n : num) : string :=
  match n with
  | Int z => NilZero.string_of_int (Z.to_int z)
  | NaN => "NaN"
  | Infinity false => "Infinity"
  | Infinity true => "-Infinity"
  end.

Section ToString.

(** The string conversion of an object runs its [toString]/[valueOf]
    methods: it is left to the environment, and taken to return; an object
    whose conversion throws (no callable [toString] or [valueOf], or one
    that returns an object or throws) is outside of what [objectToString]
    describes. On the other values [String(v)], a template literal and an
    implicit conversion all give the same string. *)
Variable objectToString : list (string * any) -> string.

Definition ToString (v : any) : string :=
  match v with
  | undefined => "undefined"
  | null => "null"
  | boolean true => "true"
  | boolean false => "false"
  | number n => string_of_num n
  | str s => s
  | object props | func props => objectToString props
  end.

End ToString.

(** [{...props, [key]: v}] and [{...props, ...more}] *)
Fixpoint assign {V : Type} (props : list (string * V)) (key : string) (v : V)
  : list (string * V) :=
  match props with
  | [] => [(key, v)]
  | (k, x) :: rest =>
      if String.eqb k key then (k, v) :: rest
      else (k, x) :: assign rest key v
  end.

Definition spread {V : Type} (props more : list (string * V))
  : list (string * V) :=
  fold_left (fun acc kv => assign acc (fst kv) (snd kv)) more props.

(** StrWhiteSpaceChar, among the code units below 256. *)
Definition is_white_space (c : ascii) : bool :=
  let n := N_of_ascii c in
  ((9 <=? n) && (n <=? 13) || (n =? 32) || (n =? 160))%N.

Fixpoint trim_start (s : string) : string :=
  match s with
  | String c s' => if is_white_space c then trim_start s' else s
  | EmptyString => s
  end.

Definition digit_of (c : ascii) : option Z :=
  let n := N_of_ascii c in
  if ((48 <=? n) && (n <=? 57))%N then Some (Z.of_N n - 48)%Z else None.

(** The longest prefix of decimal digits, as the number it denotes;
    [None] when the prefix is empty. *)
Fixpoint digits (s : string) (acc : option Z) : option Z :=
  match s with
  | String c s' =>
      match digit_of c with
      | Some d =>
          digits s' (Some (match acc with Some a => 10 * a + d | None => d end)%Z)
      | None => acc
      end
  | EmptyString => acc
  end.

(** [parseInt(s, 10)] on a string. *)
Definition parseInt_string (s : string) : num :=
  let s := trim_start s in
  let '(sign, s) :=
    match s with
    | String "-" s' => ((-1)%Z, s')
    | String "+" s' => (1%Z, s')
    | _ => (1%Z, s)
    end in
  match digits s None with
  | Some z => Int (sign * z)
  | None => NaN
  end.

Definition isNaN (n : num) : bool :=
  match n with
  | NaN => true
  | _ => false
  end.

End JS.
Import JS.

(** ** Regular expressions *)

Module Regex.

(** A regular expression object, seen through [RegExp.prototype.exec] run
    from [lastIndex = 0]: [None] is [null]; otherwise the array of the whole
    match followed by the capture groups, a group that took no part in the
    match being [undefined] ([None]). *)
Record RegExp : Type := { exec : string -> option (list (option string)) }.

(** [s.match(re)] for a regular expression without the [g] flag, and
    [re.test(s)]. *)
Definition String_match (s : string) (re : RegExp) := exec re s.

Definition test (re : RegExp) (s : string) : bool :=
  match exec re s with
  | Some _ => true
  | None => false
  end.

(** The fragment of the pattern syntax that the literals of [utils.ts] use.
    [Group n r] is the [n]-th capturing parenthesis; a non-capturing
    [(?:...)] is the nesting of the tree itself. The body of an [Opt] never
    matches the empty string in these literals. *)
Inductive atom : Type :=
| Class (members : string)   (* [abc] *)
| Dot.                       (* .     *)

Inductive regex : Type :=
| Empty
| Lit (s : string)
| Atom (a : atom)
| Seq (r1 r2 : regex)
| Alt (r1 r2 : regex)
| Opt (r : regex)            (* r?, greedy *)
| Star (a : atom)            (* a*, greedy *)
| Group (n : nat) (r : regex)
| Bol                        (* ^ without the m flag *)
| Eol.                       (* $ without the m flag *)

(** Canonicalize of a non-unicode, ignore-case match: the upper-case form
    when it is a single code unit. Below 256 that leaves out U+00B5, U+00DF
    and U+00FF, whose upper-case forms lie beyond or are two units long. *)
Definition canonicalize (c : ascii) : ascii :=
  let n := N_of_ascii c in
  if ((97 <=? n) && (n <=? 122)
      || (224 <=? n) && (n <=? 254) && negb (n =? 247))%N
  then ascii_of_N (n - 32) else c.

(** LineTerminator, among the code units below 256. *)
Definition is_line_terminator (c : ascii) : bool :=
  let n := N_of_ascii c in ((n =? 10) || (n =? 13))%N.

Fixpoint mem (eq : ascii -> ascii -> bool) (c : ascii) (s : string) : bool :=
  match s with
  | EmptyString => false
  | String x s' => eq x c || mem eq c s'
  end.

Definition captures := list (option string).

Fixpoint set_group (n : nat) (v : string) (caps : captures) : captures :=
  match n, caps with
  | _, [] => []
  | O, c :: rest => c :: rest
  | S O, _ :: rest => Some v :: rest
  | S n', c :: rest => c :: set_group n' v rest
  end.

Fixpoint groups (r : regex) : nat :=
  match r with
  | Seq r1 r2 | Alt r1 r2 => Nat.max (groups r1) (groups r2)
  | Opt r => groups r
  | Group n r => Nat.max n (groups r)
  | _ => 0
  end.

Section Matcher.

Variable ignoreCase : bool.
Variable input : string.

Definition same (a b : ascii) : bool :=
  if ignoreCase then Ascii.eqb (canonicalize a) (canonicalize b)
  else Ascii.eqb a b.

Definition atom_matches (a : atom) (c : ascii) : bool :=
  match a with
  | Class members => mem same c members
  | Dot => negb (is_line_terminator c)
  end.

(** The state of a match is the index reached, what is left of the input
    from there, and the captures so far. A continuation is the rest of
    the pattern; backtracking is the [None] it answers. *)
Definition result : Type := option (nat * captures).
Definition continuation : Type := nat -> string -> captures -> result.

Fixpoint run (r : regex) (i : nat) (s : string) (caps : captures)
         (k : continuation) {struct r} : result :=
  match r with
  | Empty => k i s caps
  | Lit l =>
      (fix lit (l : string) (i : nat) (s : string) {struct l} : result :=
         match l with
         | EmptyString => k i s caps
         | String p l' =>
             match s with
             | String c s' => if same p c then lit l' (S i) s' else None
             | EmptyString => None
             end
         end) l i s
  | Atom a =>
      match s with
      | String c s' => if atom_matches a c then k (S i) s' caps else None
      | EmptyString => None
      end
  | Seq r1 r2 => run r1 i s caps (fun i' s' caps' => run r2 i' s' caps' k)
  | Alt r1 r2 =>
      match run r1 i s caps k with
      | Some m => Some m
      | None => run r2 i s caps k
      end
  | Opt r' =>
      match run r' i s caps k with
      | Some m => Some m
      | None => k i s caps
      end
  | Star a =>
      (fix star (i : nat) (s : string) {struct s} : result :=
         match s with
         | String c s' =>
             if atom_matches a c then
               match star (S i) s' with
               | Some m => Some m
               | None => k i s caps
               end
             else k i s caps
         | EmptyString => k i s caps
         end) i s
  | Group n r' =>
      run r' i s caps
          (fun i' s' caps' =>
             k i' s' (set_group n (substring i (i' - i) input) caps'))
  | Bol => if Nat.eqb i 0 then k i s caps else None
  | Eol =>
      match s with
      | EmptyString => k i s caps
      | String _ _ => None
      end
  end.

(** The first index from which the pattern matches. *)
Fixpoint search (r : regex) (i : nat) (s : string) {struct s}
  : option (list (option string)) :=
  match run r i s (repeat None (groups r)) (fun j _ caps => Some (j, caps)) with
  | Some (j, caps) => Some (Some (substring i (j - i) input) :: caps)
  | None =>
      match s with
      | String _ s' => search r (S i) s'
      | EmptyString => None
      end
  end.

End Matcher.

(** [r1 r2 ... rn] and [r | r1 | ... | rn]. *)
Fixpoint cat (rs : list regex) : regex :=
  match rs with
  | [] => Empty
  | [r] => r
  | r :: rs' => Seq r (cat rs')
  end.

Fixpoint alt (r : regex) (rs : list regex) : regex :=
  match rs with
  | [] => r
  | r' :: rs' => Alt r (alt r' rs')
  end.

(** The object a literal [/r/] or [/r/i] evaluates to. *)
Definition literal (r : regex) (ignoreCase : bool) : RegExp :=
  {| exec := fun input => search ignoreCase input r 0 input |}.

End Regex.
Import Regex.

(** ** The event types of [@sentry/types] *)

(** The fields the code reads or writes. [lineno], [colno], [type], [value]
    and [message] are declared as numbers and strings but are assigned
    values of type [any]; an absent key and a key holding [undefined] are
    the same [undefined]. *)
Record StackFrame : Type := {
  filename : option string;
  function : option string;
  lineno : any;
  colno : any;
  in_app : option bool
}.

Record Stacktrace : Type := { frames : option (list StackFrame) }.

Record Exception : Type := {
  type : any;
  value : any;
  stacktrace : option Stacktrace;
  mechanism : option (list (string * any))
}.

Record Exceptions : Type := { values : option (list Exception) }.

Record Event : Type := {
  exception : option Exceptions;
  message : any;
  extra : option (list (string * any));
  tags : option (list (string * string));
  level : option string
}.

(** [{}] at each of these types. *)
Definition empty_stacktrace : Stacktrace := {| frames := None |}.

Definition empty_exception : Exception :=
  {| type := undefined; value := undefined; stacktrace := None;
     mechanism := None |}.

Definition empty_exceptions : Exceptions := {| values := None |}.

Definition empty_event : Event :=
  {| exception := None; message := undefined; extra := None; tags := None;
     level := None |}.

(** Assignments to one field. *)
Definition set_stacktrace (e : Exception) (s : Stacktrace) : Exception :=
  {| type := type e; value := value e; stacktrace := Some s;
     mechanism := mechanism e |}.

Definition set_value (e : Exception) (v : any) : Exception :=
  {| type := type e; value := v; stacktrace := stacktrace e;
     mechanism := mechanism e |}.

Definition set_exception (ev : Event) (e : Exceptions) : Event :=
  {| exception := Some e; message := message ev; extra := extra ev;
     tags := tags ev; level := level ev |}.

Definition set_tags (ev : Event) (t : list (string * string)) : Event :=
  {| exception := exception ev; message := message ev; extra := extra ev;
     tags := Some t; level := level ev |}.

Definition set_level (ev : Event) (l : string) : Event :=
  {| exception := exception ev; message := message ev; extra := extra ev;
     tags := tags ev; level := Some l |}.

(** [(stack: string, skipFirst?: number) => StackFrame[]]; it may throw. *)
Definition StackParser : Type := any -> num -> outcome (list StackFrame).

(** [src/types.ts] *)
Inductive SubURL : Type :=
| Literal (s : string)
| Pattern (re : RegExp).

Definition CustomEventFilterFunction (E : Type) : Type := E -> string -> bool.

(** ** What the code imports

    The helpers of [@sentry/utils], the class of [axios], the document
    location, the string conversion of objects and the constant of
    [./constants] are not part of the sources: the functions below are
    stated over any behaviour of them. *)
Class Environment : Type := {
  isErrorEvent : any -> bool;
  isDOMError : any -> bool;
  isDOMException : any -> bool;
  isError : any -> bool;
  isPlainObject : any -> bool;
  isEvent : any -> bool;
  normalizeToSize : any -> any -> any;
  extractExceptionKeysForMessage : any -> string;
  addExceptionMechanism : Event -> list (string * any) -> Event;
  addExceptionTypeValue : Event -> any -> any -> Event;
  getLocationHref : string;
  instanceofAxiosError : any -> bool;
  objectToString : list (string * any) -> string;
  reactMinifiedRegexp : RegExp;
  (** [isErrorEvent] tests the class of an object: a string has none. *)
  isErrorEvent_str : forall s, isErrorEvent (str s) = false
}.

(** [isString] and [isPrimitive] of [@sentry/utils], on the values
    represented here. *)
Definition isString (v : any) : bool :=
  match v with
  | str _ => true
  | _ => false
  end.

Definition isPrimitive (v : any) : bool :=
  match v with
  | null => true
  | _ =>
      match typeof v with
      | t_object | t_function => false
      | _ => true
      end
  end.

(** The client and the hub of [@sentry/browser], as far as the code reads
    them, and the calls it makes on them. *)
Record ClientOptions : Type := {
  stackParser : StackParser;
  attachStacktrace : option bool;
  allowUrls : option (list SubURL);
  denyUrls : option (list SubURL);
  normalizeDepth : any
}.

Record BrowserClient : Type := { getOptions : ClientOptions }.

Record Hub : Type := { getClient : option BrowserClient }.

Inductive Effect : Type :=
| captureException (error hint : any)
| captureEvent (event : Event) (hint : any)
| stopImmediatePropagation.

(** A run of effectful code: the calls made, in order, and how it ended. *)
Definition run_of (A : Type) : Type := (list Effect * outcome A)%type.

Definition flag (b : option bool) : bool :=
  match b with
  | Some true => true
  | _ => false
  end.

(** ** [src/utils.ts] *)

Section Utils.

Context {env : Environment}.

Definition ToString : any -> string := JS.ToString objectToString.

Definition parseInt (v : any) : num := parseInt_string (ToString v).

Definition doesIncludeSubURLs (url : string) (subURLs : list SubURL)
  : option bool :=
  if Nat.eqb (length subURLs) 0 then None
  else
    Some (existsb
            (fun subURL =>
               match subURL with
               | Pattern re =>
                   match String_match url re with
                   | Some _ => true
                   | None => false
                   end
               | Literal sub => includes url sub
               end)
            subURLs).

(** ToBoolean of a [boolean | null]. *)
Definition holds (b : option bool) : bool :=
  match b with
  | Some b => b
  | None => false
  end.

Definition shouldCaptureError {E : Type} (event : E) (url : string)
           (allowUrls denyUrls : list SubURL)
           (customEventFilter : option (CustomEventFilterFunction E))
  : bool :=
  if Nat.ltb 0 (length denyUrls) && holds (doesIncludeSubURLs url denyUrls)
  then false
  else if Nat.ltb 0 (length allowUrls)
          && negb (holds (doesIncludeSubURLs url allowUrls))
  then true
  else
    match customEventFilter with
    | Some filter => filter event url
    | None => true
    end.

(** [v && v.p] *)
Definition and_get (v : any) (p : string) : outcome any :=
  if truthy v then get v p else Returns v.

Definition extractMessage (ex : any) : outcome any :=
  message <- and_get ex "message" ;;
  if negb (truthy message) then Returns (str "No error message")
  else
    error <- get message "error" ;;
    if truthy error then
      inner <- get error "message" ;;
      match typeof inner with
      | t_string => Returns inner
      | _ => Returns message
      end
    else Returns message.

(** [reactMinifiedRegexp.test(ex.message)] converts the message to a
    string. That conversion is [ToString]: it runs no code and returns when
    the message is a primitive, and is the environment's when the message
    is an object. *)
Definition getPopSize (ex : any) : outcome num :=
  if truthy ex then
    framesToPop <- get ex "framesToPop" ;;
    match framesToPop with
    | number n => Returns n
    | _ =>
        message <- get ex "message" ;;
        if Regex.test reactMinifiedRegexp (ToString message)
        then Returns (Int 1)
        else Returns (Int 0)
    end
  else Returns (Int 0).

(** [ex.stacktrace || ex.stack || ''] *)
Definition rawStack (ex : any) : outcome any :=
  stacktrace <- get ex "stacktrace" ;;
  if truthy stacktrace then Returns stacktrace
  else
    stack <- get ex "stack" ;;
    Returns (or_ stack (str "")).

Definition parseStackFrames (stackParser : StackParser) (ex : any)
  : outcome (list StackFrame) :=
  stacktrace <- rawStack ex ;;
  popSize <- getPopSize ex ;;
  Returns (try_catch (stackParser stacktrace popSize) []).

Definition exceptionFromError (stackParser : StackParser) (ex : any)
  : outcome Exception :=
  frames <- parseStackFrames stackParser ex ;;
  name <- and_get ex "name" ;;
  message <- extractMessage ex ;;
  let exception :=
    {| type := name; value := message; stacktrace := None;
       mechanism := None |} in
  let exception :=
    if negb (Nat.eqb (length frames) 0)
    then set_stacktrace exception {| frames := Some frames |}
    else exception in
  let exception :=
    if is_undefined (type exception) && is_str (value exception) ""
    then set_value exception (str "Unrecoverable error caught")
    else exception in
  Returns exception.

Definition eventFromString (stackParser : StackParser) (input : any)
           (syntheticException : any) (attachStacktrace : option bool)
  : outcome Event :=
  let event :=
    {| exception := None; message := input; extra := None; tags := None;
       level := None |} in
  if flag attachStacktrace && truthy syntheticException then
    frames <- parseStackFrames stackParser syntheticException ;;
    if negb (Nat.eqb (length frames) 0) then
      Returns
        (set_exception event
           {| values :=
               Some [set_stacktrace (set_value empty_exception input)
                                    {| frames := Some frames |}] |})
    else Returns event
  else Returns event.

Definition eventFromError (stackParser : StackParser) (ex : any)
  : outcome Event :=
  exception <- exceptionFromError stackParser ex ;;
  Returns (set_exception empty_event {| values := Some [exception] |}).

Definition eventFromPlainObject (hub : option Hub)
           (stackParser : StackParser) (exception : any)
           (syntheticException : any) (isUnhandledRejection : option bool)
  : outcome Event :=
  match hub with
  | None => Throws "TypeError"
  | Some hub =>
      let client := getClient hub in
      let normalizeDepth :=
        match client with
        | Some client => normalizeDepth (getOptions client)
        | None => undefined
        end in
      type <-
        (if isEvent exception then
           constructor <- get exception "constructor" ;;
           get constructor "name"
         else if flag isUnhandledRejection
              then Returns (str "UnhandledRejection")
              else Returns (str "Error")) ;;
      let first :=
        {| type := type;
           value :=
             str ("Non-Error "
                    ++ (if flag isUnhandledRejection
                        then "promise rejection" else "exception")
                    ++ " captured with keys: "
                    ++ extractExceptionKeysForMessage exception);
           stacktrace := None; mechanism := None |} in
      let event :=
        {| exception := Some {| values := Some [first] |};
           message := undefined;
           extra :=
             Some [("__serialized__",
                    normalizeToSize exception normalizeDepth)];
           tags := None; level := None |} in
      if truthy syntheticException then
        frames <- parseStackFrames stackParser syntheticException ;;
        if negb (Nat.eqb (length frames) 0) then
          Returns
            (set_exception event
               {| values :=
                   Some [set_stacktrace first {| frames := Some frames |}] |})
        else Returns event
      else Returns event
  end.

Definition eventFromUnknownInput (hub : option Hub)
           (stackParser : StackParser) (exception : any)
           (syntheticException : any) (attachStacktrace : option bool)
           (isUnhandledRejection : option bool)
  : outcome Event :=
  error <- (if isErrorEvent exception then get exception "error"
            else Returns (boolean false)) ;;
  if truthy error then eventFromError stackParser error
  else if isDOMError exception || isDOMException exception then
    hasStack <- has "stack" exception ;;
    event <-
      (if (hasStack : bool) then eventFromError stackParser exception
       else
         domName <- get exception "name" ;;
         let name :=
           or_ domName
               (str (if isDOMError exception then "DOMError"
                     else "DOMException")) in
         domMessage <- get exception "message" ;;
         let message :=
           if truthy domMessage
           then str (ToString name ++ ": " ++ ToString domMessage)
           else name in
         event <- eventFromString stackParser message syntheticException
                                  attachStacktrace ;;
         Returns (addExceptionTypeValue event message undefined)) ;;
    hasCode <- has "code" exception ;;
    if (hasCode : bool) then
      code <- get exception "code" ;;
      Returns
        (set_tags event
           (assign (match tags event with Some t => t | None => [] end)
                   "DOMException.code" (ToString code)))
    else Returns event
  else if isError exception then eventFromError stackParser exception
  else if isPlainObject exception || isEvent exception then
    event <- eventFromPlainObject hub stackParser exception
                                  syntheticException isUnhandledRejection ;;
    Returns (addExceptionMechanism event [("synthetic", boolean true)])
  else
    event <- eventFromString stackParser exception syntheticException
                             attachStacktrace ;;
    Returns
      (addExceptionMechanism
         (addExceptionTypeValue event (str (ToString exception)) undefined)
         [("synthetic", boolean true)]).

(** [filename !== lit] *)
Definition differs (filename : option string) (lit : string) : bool :=
  match filename with
  | Some s => negb (String.eqb s lit)
  | None => true
  end.

(** The loop of [getLastValidUrl], over the frames from the last one
    backwards. *)
Fixpoint lastValid (backwards : list StackFrame) : option string :=
  match backwards with
  | [] => None
  | frame :: rest =>
      if differs (filename frame) "<anonymous>"
         && differs (filename frame) "[native code]"
      then
        match filename frame with
        | Some s => if String.eqb s "" then None else Some s
        | None => None
        end
      else lastValid rest
  end.

Definition getLastValidUrl (frames : option (list StackFrame))
  : option string :=
  lastValid (rev (match frames with Some f => f | None => [] end)).

Definition isNetworkError (error : any) : outcome bool :=
  if instanceofAxiosError error then Returns true
  else
    hasName <- has "name" error ;;
    if (hasName : bool) then
      name <- get error "name" ;;
      if is_str name "NetworkError" then Returns true else Returns false
    else Returns false.

(** [event.exception.values[0].stacktrace.frames], [undefined] when the
    path breaks (the inner [try]). *)
Definition getEventFilterUrl (event : Event) : option string :=
  let frames :=
    match exception event with
    | Some e =>
        match values e with
        | Some (ev0 :: _) =>
            match stacktrace ev0 with
            | Some s => frames s
            | None => None
            end
        | _ => None
        end
    | None => None
    end in
  getLastValidUrl frames.

Definition addMechanismAndCapture (hub : option Hub) (error : any)
           (event : Event) (type : string) : run_of unit :=
  let event :=
    addExceptionMechanism event
      [("handled", boolean false); ("type", str type)] in
  match hub with
  | Some _ =>
      ([captureEvent event (object [("originalException", error)])],
       Returns tt)
  | None => ([], Throws "TypeError")
  end.

Definition enhanceEventWithInitialFrame (event : Event)
           (url line column : any) : Event :=
  let e := match exception event with Some e => e | None => empty_exceptions end in
  let ev := match values e with Some ev => ev | None => [] end in
  let ev0 := match ev with ev0 :: _ => ev0 | [] => empty_exception end in
  let ev0s :=
    match stacktrace ev0 with Some s => s | None => empty_stacktrace end in
  let ev0sf := match frames ev0s with Some f => f | None => [] end in
  let colno := if isNaN (parseInt column) then undefined else column in
  let lineno := if isNaN (parseInt line) then undefined else line in
  let filename :=
    match url with
    | str u => if Nat.ltb 0 (String.length u) then u else getLocationHref
    | _ => getLocationHref
    end in
  let ev0sf :=
    if Nat.eqb (length ev0sf) 0 then
      (ev0sf ++ [{| filename := Some filename; function := Some "?";
                    lineno := lineno; colno := colno;
                    in_app := Some true |}])%list
    else ev0sf in
  (* the event, with the objects reached on the way stored back in it *)
  set_exception event
    {| values :=
        Some (set_stacktrace ev0 {| frames := Some ev0sf |} :: tl ev) |}.

Definition ERROR_TYPES_RE : RegExp :=
  Regex.literal
    (cat [Bol;
          Opt (cat [Atom (Class "Uu"); Lit "ncaught ";
                    Opt (Lit "exception: ")]);
          Opt (cat [Group 1
                      (cat [alt (Lit "Eval")
                                [Lit "Internal"; Lit "Range";
                                 Lit "Reference"; Lit "Syntax"; Lit "Type";
                                 Lit "URI"; Empty];
                            Lit "Error"]);
                    Lit ": "]);
          Group 2 (Star Dot);
          Eol])
    true.

(** [groups[n]] *)
Definition group (groups : list (option string)) (n : nat) : any :=
  match nth_error groups n with
  | Some (Some s) => str s
  | _ => undefined
  end.

(** [message.match] is [String.prototype.match]: a [message] that is not
    a string has no such method. *)
Definition eventFromIncompleteOnError (msg url line column : any)
  : outcome Event :=
  message <- (if isErrorEvent msg then get msg "message" else Returns msg) ;;
  match message with
  | str text =>
      let '(name, message) :=
        match String_match text ERROR_TYPES_RE with
        | Some groups => (group groups 1, group groups 2)
        | None => (str "Error", message)
        end in
      let event :=
        set_exception empty_event
          {| values :=
              Some [{| type := name; value := message; stacktrace := None;
                       mechanism := None |}] |} in
      Returns (enhanceEventWithInitialFrame event url line column)
  | _ => Throws "TypeError"
  end.

End Utils.

(** ** The [MFESentry] class *)

(** The static fields. *)
Record MFESentry : Type := {
  hub : option Hub;
  client : option BrowserClient;
  appJSFile : option string;
  customEventFilter : option (CustomEventFilterFunction Event)
}.

(** The fields of the [ErrorEvent] that [handleOnError] destructures. *)
Record ErrorEvent : Type := {
  data_message : any;
  data_filename : string;
  data_lineno : any;
  data_colno : any;
  data_error : any
}.

Section Class.

Context {env : Environment}.

Definition setClientAndHub (self : MFESentry) (hub : Hub)
           (client : BrowserClient) : MFESentry :=
  {| hub := Some hub; client := Some client; appJSFile := appJSFile self;
     customEventFilter := customEventFilter self |}.

Definition createClient (self : MFESentry) (options : ClientOptions)
           (appJSFile : option string)
           (customEventFilter : option (CustomEventFilterFunction Event))
  : MFESentry * (BrowserClient * Hub) :=
  let newClient := {| getOptions := options |} in
  let newHub := {| getClient := Some newClient |} in
  let self := setClientAndHub self newHub newClient in
  ({| hub := hub self; client := client self; appJSFile := appJSFile;
      customEventFilter := customEventFilter |},
   (newClient, newHub)).

(** An [outcome] inside a run. *)
Definition after {A B : Type} (m : outcome A) (k : A -> run_of B)
  : run_of B :=
  match m with
  | Returns a => k a
  | Throws e => ([], Throws e)
  end.

Definition captureExecption (self : MFESentry) (error hint : any)
           (forceSendingNetworkError : option bool) : run_of unit :=
  match hub self with
  | Some _ =>
      if flag forceSendingNetworkError
      then ([captureException error hint], Returns tt)
      else
        after (isNetworkError error)
              (fun network =>
                 if negb network
                 then ([captureException error hint], Returns tt)
                 else ([], Returns tt))
  | None => ([], Returns tt)
  end.

Definition _eventFromRejectionWithPrimitive (reason : any) : Event :=
  set_exception empty_event
    {| values :=
        Some [{| type := str "UnhandledRejection";
                 value :=
                   str ("Non-Error promise rejection captured with value: "
                          ++ ToString reason);
                 stacktrace := None; mechanism := None |}] |}.

Definition getHubOptions (self : MFESentry)
  : StackParser * option bool * list SubURL * list SubURL :=
  let options :=
    match client self with
    | Some client => getOptions client
    | None =>
        {| stackParser := fun _ _ => Returns [];
           attachStacktrace := Some false; allowUrls := Some [];
           denyUrls := Some []; normalizeDepth := undefined |}
    end in
  (stackParser options, attachStacktrace options,
   match allowUrls options with Some l => l | None => [] end,
   match denyUrls options with Some l => l | None => [] end).

(** [handleUnhandledRejection]: the value of [error] when the [try] block
    is left. *)
Definition rejectionReason (e : any) : any :=
  try_catch
    (hasReason <- has "reason" e ;;
     if (hasReason : bool) then get e "reason"
     else
       hasDetail <- has "detail" e ;;
       if (hasDetail : bool) then
         detail <- get e "detail" ;;
         detailHasReason <- has "reason" detail ;;
         if (detailHasReason : bool) then get detail "reason"
         else Returns e
       else Returns e)
    e.

(** [handleUnhandledRejection]: the value [event] is declared with. *)
Definition rejectionEvent (self : MFESentry) (error : any) : outcome Event :=
  let '(stackParser, attachStacktrace, _, _) := getHubOptions self in
  if isPrimitive error then Returns (_eventFromRejectionWithPrimitive error)
  else eventFromUnknownInput (hub self) stackParser error undefined
                             attachStacktrace (Some true).

(** The result is [true] or [undefined]. *)
Definition handleUnhandledRejection (self : MFESentry) (e : any)
  : run_of any :=
  let error := rejectionReason e in
  after (and_get error "__sentry_own_request__")
    (fun ownRequest =>
       if truthy ownRequest then ([], Returns (boolean true))
       else
         after (rejectionEvent self error)
           (fun event =>
              let event := set_level event "error" in
              match getEventFilterUrl event with
              | Some eventFilterURL =>
                  if match appJSFile self with
                     | Some file =>
                         negb (String.eqb file "")
                         && negb (includes eventFilterURL file)
                     | None => false
                     end
                  then ([], Returns undefined)
                  else if match customEventFilter self with
                          | Some filter => negb (filter event eventFilterURL)
                          | None => false
                          end
                  then ([], Returns undefined)
                  else
                    after (get e "stopImmediatePropagation")
                      (fun stop =>
                         let stopped :=
                           match typeof stop with
                           | t_function => [stopImmediatePropagation]
                           | _ => []
                           end in
                         let '(calls, result) :=
                           addMechanismAndCapture
                             (hub self) error event "onunhandledrejection" in
                         ((stopped ++ calls)%list,
                          _ <- result ;; Returns undefined))
              | None => ([], Returns undefined)
              end)).

Definition handleOnError (self : MFESentry) (data : ErrorEvent)
  : run_of unit :=
  let '(stackParser, attachStacktrace, allowUrls, denyUrls) :=
    getHubOptions self in
  let message := data_message data in
  let url := data_filename data in
  let line := data_lineno data in
  let column := data_colno data in
  let error := data_error data in
  if negb (shouldCaptureError error url allowUrls denyUrls None) then
    ([], Returns tt)
  else
    after (and_get error "__sentry_own_request__")
      (fun ownRequest =>
         if truthy ownRequest then ([], Returns tt)
         else
           after
             (if is_undefined error && isString message
              then eventFromIncompleteOnError message (str url) line column
              else
                event <- eventFromUnknownInput
                           (hub self) stackParser (or_ error message)
                           undefined attachStacktrace (Some false) ;;
                Returns
                  (enhanceEventWithInitialFrame event (str url) line column))
             (fun event =>
                let event := set_level event "error" in
                addMechanismAndCapture (hub self) error event "onerror")).

End Class.

(** ** The vocabulary of the statements *)

(** What it is for a url to match an entry of an allow or deny list:
    containment for a string, a successful match for a pattern. *)
Definition url_matches (url : string) (entry : SubURL) : Prop :=
  match entry with
  | Literal sub => exists before after_, url = before ++ sub ++ after_
  | Pattern re => String_match url re <> None
  end.

Definition first_exception (event : Event) : Exception :=
  match exception event with
  | Some {| values := Some (first :: _) |} => first
  | _ => empty_exception
  end.

(** The frame list of the first exception of an event, empty when there is
    none. *)
Definition eventFrames (event : Event) : list StackFrame :=
  match frames
          (match stacktrace (first_exception event) with
           | Some s => s
           | None => empty_stacktrace
           end) with
  | Some f => f
  | None => []
  end.

(** [undefined] and [null], on which a property read throws. *)
Definition nullish (v : any) : bool :=
  match v with
  | undefined | null => true
  | _ => false
  end.


(** No line terminator occurs in the string. *)
Fixpoint single_line (s : string) : bool :=
  match s with
  | EmptyString => true
  | String c s' => negb (is_line_terminator c) && single_line s'
  end.

Section Statements.

Context {env : Environment}.

(** The frame that [enhanceEventWithInitialFrame] builds. *)
Definition initialFrame (url line column : any) : StackFrame :=
  {| filename :=
      Some (match url with
            | str u => if String.eqb u "" then getLocationHref else u
            | _ => getLocationHref
            end);
     function := Some "?";
     lineno := if isNaN (parseInt line) then undefined else line;
     colno := if isNaN (parseInt column) then undefined else column;
     in_app := Some true |}.

(** The coercion the specification words: the integer that [parseInt]
    reads from the input, [undefined] when there is none. *)
Definition coerced (input : any) : any :=
  match parseInt input with
  | NaN => undefined
  | n => number n
  end.

(** The injected frame as the specification words it, with [lineno] and
    [colno] coerced to numbers. *)
Definition injected_frame_coerced : Prop :=
  forall (event : Event) (url line column : any),
    eventFrames event = [] ->
    exists frame,
      eventFrames (enhanceEventWithInitialFrame event url line column)
      = [frame]
      /\ function frame = Some "?"
      /\ in_app frame = Some true
      /\ lineno frame = coerced line
      /\ colno frame = coerced column
      /\ filename frame
         = Some (match url with
                 | str u => if String.eqb u "" then getLocationHref else u
                 | _ => getLocationHref
                 end).

(** The event of [eventFromIncompleteOnError] for a type, a value and a
    position. *)
Definition onerrorEvent (name message url line column : any) : Event :=
  enhanceEventWithInitialFrame
    (set_exception empty_event
       {| values :=
           Some [{| type := name; value := message; stacktrace := None;
                    mechanism := None |}] |})
    url line column.

End Statements.

(** ** The vocabulary of the further properties *)

(** The exceptions of an event, none when the keys are missing. *)
Definition exceptions (event : Event) : list Exception :=
  match exception event with
  | Some {| values := Some l |} => l
  | _ => []
  end.

(** A frame whose file name is one of the two markers that
    [getLastValidUrl] skips. *)
Definition unattributable (frame : StackFrame) : bool :=
  match filename frame with
  | Some s => String.eqb s "<anonymous>" || String.eqb s "[native code]"
  | None => false
  end.

(** [tags[key]] *)
Fixpoint tag (key : string) (tags : list (string * string)) : option string :=
  match tags with
  | [] => None
  | (k, v) :: rest => if String.eqb k key then Some v else tag key rest
  end.

(** In a match on [input], the index [i] is where [s] starts. *)
Definition starts_at (input : string) (i : nat) (s : string) : Prop :=
  exists before, input = before ++ s /\ String.length before = i.

(** In a match on [input], a continuation [k] reached from the state
    [(i, s, caps)]: it is entered further on in the same input, after
    [consumed], with captures that [keep] relates to [caps], and answers
    [res]. *)
Definition reached (input : string) (keep : captures -> captures -> Prop)
           (i : nat) (s : string) (caps : captures)
           (k : continuation) (res : nat * captures) : Prop :=
  exists i' s' caps' consumed,
    starts_at input i' s'
    /\ s = consumed ++ s'
    /\ i' = i + String.length consumed
    /\ keep caps caps'
    /\ k i' s' caps' = Some res.

(** The parts of [ERROR_TYPES_RE]: the prefix ["Uncaught "] with its
    ["exception: "], the class name, and the whole pattern after [^]. *)
Definition uncaught_prefix : regex :=
  cat [Atom (Class "Uu"); Lit "ncaught "; Opt (Lit "exception: ")].

Definition error_class : regex :=
  cat [alt (Lit "Eval")
           [Lit "Internal"; Lit "Range"; Lit "Reference"; Lit "Syntax";
            Lit "Type"; Lit "URI"; Empty];
       Lit "Error"].

Definition message_tail : regex := Seq (Group 2 (Star Dot)) Eol.

Definition error_types : regex :=
  Seq (Opt uncaught_prefix)
      (Seq (Opt (Seq (Group 1 error_class) (Lit ": "))) message_tail).

(** A pattern whose literals and classes hold no line terminator, and a
    continuation that fails whenever a line terminator is still ahead. *)
Definition safe_atom (a : atom) : bool :=
  match a with
  | Class members => single_line members
  | Dot => true
  end.

Fixpoint safe (r : regex) : bool :=
  match r with
  | Lit l => single_line l
  | Atom a | Star a => safe_atom a
  | Seq r1 r2 | Alt r1 r2 => safe r1 && safe r2
  | Opt r | Group _ r => safe r
  | Empty | Bol | Eol => true
  end.

Definition blocked (k : continuation) : Prop :=
  forall i s caps, single_line s = false -> k i s caps = None.

(** [text] is [lit] up to the case of the letters, as an ignore-case match
    compares them. *)
Fixpoint same_text (lit text : string) : bool :=
  match lit, text with
  | EmptyString, EmptyString => true
  | String p lit', String c text' => same true p c && same_text lit' text'
  | _, _ => false
  end.

(** The class names that [ERROR_TYPES_RE] lists before ["Error"]. *)
Definition class_names : list string :=
  ["Eval"; "Internal"; "Range"; "Reference"; "Syntax"; "Type"; "URI"; ""].

(** The continuation that ends a match. *)
Definition accept : continuation := fun j _ caps => Some (j, caps).

(** The static fields with another entry file and custom filter, and
    client options with other url lists. *)
Definition with_filters (self : MFESentry) (file : option string)
           (filter : option (CustomEventFilterFunction Event)) : MFESentry :=
  {| hub := hub self; client := client self; appJSFile := file;
     customEventFilter := filter |}.

Definition with_url_lists (options : ClientOptions)
           (allow deny : option (list SubURL)) : ClientOptions :=
  {| stackParser := stackParser options;
     attachStacktrace := attachStacktrace options;
     allowUrls := allow; denyUrls := deny;
     normalizeDepth := normalizeDepth options |}.

(** The mechanism that [addMechanismAndCapture] stamps, and the hint it
    passes. *)
Definition unhandled (type : string) : list (string * any) :=
  [("handled", boolean false); ("type", str type)].

Definition hint_of (error : any) : any :=
  object [("originalException", error)].

(** ** An environment to run the code in

    One behaviour of the imports, for the examples: the class of an object
    is the name its [constructor] property carries. *)

Definition class_of (v : any) : string :=
  match v with
  | object props | func props =>
      match lookup "constructor" props with
      | Some (object c | func c) =>
          match lookup "name" c with
          | Some (str n) => n
          | _ => "Object"
          end
      | _ => "Object"
      end
  | _ => ""
  end.

Definition with_first_exception (event : Event) (first : Exception) : Event :=
  set_exception event
    {| values :=
        Some (first ::
              match exception event with
              | Some {| values := Some (_ :: rest) |} => rest
              | _ => []
              end) |}.

Definition browser_addExceptionMechanism (event : Event)
           (newMechanism : list (string * any)) : Event :=
  match exception event with
  | Some {| values := Some (first :: _) |} =>
      with_first_exception event
        {| type := type first; value := value first;
           stacktrace := stacktrace first;
           mechanism :=
             Some (spread
                     (spread [("type", str "generic"); ("handled", boolean true)]
                             (match mechanism first with
                              | Some m => m
                              | None => []
                              end))
                     newMechanism) |}
  | _ => event
  end.

Definition browser_addExceptionTypeValue (event : Event) (v t : any) : Event :=
  let first := first_exception event in
  with_first_exception event
    {| type := if truthy (type first) then type first else or_ t (str "Error");
       value := if truthy (value first) then value first else or_ v (str "");
       stacktrace := stacktrace first; mechanism := mechanism first |}.

Definition browser : Environment :=
  {| isErrorEvent := fun v => String.eqb (class_of v) "ErrorEvent";
     isDOMError := fun v => String.eqb (class_of v) "DOMError";
     isDOMException := fun v => String.eqb (class_of v) "DOMException";
     isError := fun v => includes (class_of v) "Error";
     isPlainObject := fun v => String.eqb (class_of v) "Object";
     isEvent := fun v => includes (class_of v) "Event";
     normalizeToSize := fun v _ => v;
     extractExceptionKeysForMessage :=
       fun v =>
         match v with
         | object props | func props => String.concat ", " (map fst props)
         | _ => ""
         end;
     addExceptionMechanism := browser_addExceptionMechanism;
     addExceptionTypeValue := browser_addExceptionTypeValue;
     getLocationHref := "https://shop.example/checkout";
     instanceofAxiosError := fun v => String.eqb (class_of v) "AxiosError";
     objectToString := fun _ => "[object Object]";
     reactMinifiedRegexp :=
       Regex.literal (Lit "Minified React error #") true;
     isErrorEvent_str := fun _ => eq_refl |}.

(** Values to run the code on. *)

(** A thrown [TypeError] and two stack parsers, one that fails on every
    input and one that reads a single frame. *)
Definition thrown : any :=
  object [("name", str "TypeError"); ("message", str "x is not a function");
          ("stack", str "TypeError: x is not a function at f (app.js:10:5)")].

Definition failingParser : StackParser := fun _ _ => Throws "RangeError".

Definition oneFrameParser : StackParser :=
  fun _ _ =>
    Returns [{| filename := Some "app.js"; function := Some "f";
                lineno := number (Int 10); colno := number (Int 5);
                in_app := Some true |}].

(** An error without a name whose message wraps an error with an empty
    message. *)
Definition emptyError : any :=
  object [("message", object [("error", object [("message", str "")])])].

Definition unbound : MFESentry :=
  {| hub := None; client := None; appJSFile := None;
     customEventFilter := None |}.

Definition bound : MFESentry :=
  fst (createClient unbound
         {| stackParser := oneFrameParser; attachStacktrace := None;
            allowUrls := None; denyUrls := Some [Literal "vendor"];
            normalizeDepth := undefined |}
         (Some "app.js") None).

Definition axiosError : any :=
  object [("constructor", func [("name", str "AxiosError")]);
          ("name", str "AxiosError"); ("message", str "Network Error")].

Definition typeError : any :=
  object [("constructor", func [("name", str "TypeError")]);
          ("name", str "TypeError"); ("message", str "x is not a function");
          ("stack", str "TypeError: x is not a function at f (app.js:10:5)")].

(** An error of React, which asks for frames to be dropped. *)
Definition invariantViolation : any :=
  object [("name", str "Invariant Violation");
          ("message", str "Minified React error #31");
          ("framesToPop", number (Int 2));
          ("stack", str "Invariant Violation at g (react.js:1:1)")].

Definition rejected : any :=
  object [("reason", typeError); ("stopImmediatePropagation", func [])].

Definition domException : any :=
  object [("constructor", func [("name", str "DOMException")]);
          ("name", str "NotFoundError"); ("message", str "node not found");
          ("code", number (Int 8))].

Definition ownRequest : any :=
  object [("message", str "Failed to fetch");
          ("__sentry_own_request__", boolean true)].

Definition legacy (file : string) : ErrorEvent :=
  {| data_message := str "Uncaught TypeError: x is not a function";
     data_filename := file; data_lineno := number (Int 10);
     data_colno := number (Int 5); data_error := undefined |}.

(** Code units are compared through their numbers. *)
Ltac eval_code_unit :=
  repeat match goal with
         | |- context [N_of_ascii ?c] =>
             let n := eval vm_compute in (N_of_ascii c) in
             change (N_of_ascii c) with n
         end.

(** ** Properties *)

(** *** URL lists *)

Lemma prefix_append (sub s : string) :
  String.prefix sub s = true <-> exists rest, s = sub ++ rest.
Proof.
  revert s; induction sub as [|a sub IH]; intros [|b s]; simpl.
  - split; eauto.
  - split; eauto.
  - split; [discriminate | intros [rest H]; discriminate].
  - destruct (ascii_dec a b) as [->|Hab].
    + rewrite IH. split; intros [rest H]; exists rest.
      * now rewrite H.
      * now injection H.
    + split; [discriminate | intros [rest H]; injection H; intros; subst].
      now elim Hab.
Qed.

Lemma includes_spec (s sub : string) :
  includes s sub = true <-> exists before after_, s = before ++ sub ++ after_.
Proof.
  induction s as [|c s IH].
  - change (includes "" sub) with (String.prefix sub "" || false).
    rewrite orb_false_r, prefix_append. split.
    + intros [rest H]. now exists "", rest.
    + intros [[|b before] [rest H]]; [now exists rest | discriminate].
  - change (includes (String c s) sub)
      with (String.prefix sub (String c s) || includes s sub).
    rewrite orb_true_iff, prefix_append, IH. split.
    + intros [[rest H]|[before [rest H]]].
      * now exists "", rest.
      * exists (String c before), rest. simpl. now rewrite H.
    + intros [[|b before] [rest H]]; simpl in H.
      * left; now exists rest.
      * right. injection H; intros H' _. now exists before, rest.
Qed.

Section UrlLists.

Context {env : Environment}.

Lemma doesIncludeSubURLs_true (url : string) (subURLs : list SubURL) :
  holds (doesIncludeSubURLs url subURLs) = true
  <-> exists entry, In entry subURLs /\ url_matches url entry.
Proof.
  unfold doesIncludeSubURLs.
  destruct subURLs as [|first rest] eqn:Hlist.
  - simpl. split; [discriminate | intros [entry [[] _]]].
  - rewrite <- Hlist. replace (Nat.eqb (length subURLs) 0) with false
      by (now rewrite Hlist).
    simpl holds. rewrite existsb_exists.
    split; intros [entry [Hin Hm]]; exists entry; split; trivial.
    + destruct entry as [sub|re]; simpl.
      * now apply includes_spec.
      * destruct (String_match url re); [discriminate | discriminate].
    + destruct entry as [sub|re]; simpl in Hm.
      * now apply includes_spec.
      * destruct (String_match url re); [reflexivity | now elim Hm].
Qed.

(** C1. A url that matches an entry of a non-empty deny list is rejected,
    whatever the allow list and the custom filter are. *)
Theorem shouldCaptureError_deny
        {E : Type} (event : E) (url : string) (allowUrls denyUrls : list SubURL)
        (customEventFilter : option (CustomEventFilterFunction E)) :
  denyUrls <> [] ->
  (exists entry, In entry denyUrls /\ url_matches url entry) ->
  shouldCaptureError event url allowUrls denyUrls customEventFilter = false.
Proof.
  intros Hne Hmatch. unfold shouldCaptureError.
  apply doesIncludeSubURLs_true in Hmatch. rewrite Hmatch.
  destruct denyUrls; [now elim Hne | reflexivity].
Qed.

(** C2. With a deny list that is empty or matches nothing, a url that
    matches no entry of a non-empty allow list is accepted, and the custom
    filter has no say. *)
Theorem shouldCaptureError_allow_miss
        {E : Type} (event : E) (url : string) (allowUrls denyUrls : list SubURL)
        (customEventFilter : option (CustomEventFilterFunction E)) :
  (denyUrls = [] \/ forall entry, In entry denyUrls -> ~ url_matches url entry) ->
  allowUrls <> [] ->
  (forall entry, In entry allowUrls -> ~ url_matches url entry) ->
  shouldCaptureError event url allowUrls denyUrls customEventFilter = true.
Proof.
  intros Hdeny Hne Hallow. unfold shouldCaptureError.
  assert (Hd : Nat.ltb 0 (length denyUrls)
               && holds (doesIncludeSubURLs url denyUrls) = false).
  { destruct Hdeny as [->|Hnone]; [reflexivity|].
    apply andb_false_iff; right. apply not_true_is_false.
    rewrite doesIncludeSubURLs_true. intros [entry [Hin Hm]].
    exact (Hnone entry Hin Hm). }
  rewrite Hd.
  assert (Ha : holds (doesIncludeSubURLs url allowUrls) = false).
  { apply not_true_is_false. rewrite doesIncludeSubURLs_true.
    intros [entry [Hin Hm]]. exact (Hallow entry Hin Hm). }
  rewrite Ha. destruct allowUrls; [now elim Hne | reflexivity].
Qed.

End UrlLists.

Lemma shouldCaptureError_deny_witness :
  shouldCaptureError tt "https://cdn.example/vendor.js"
    [Literal "vendor.js"]
    [Pattern (Regex.literal (Lit "analytics") true); Literal "cdn."]
    (Some (fun _ _ => true)) = false.
Proof.
  apply shouldCaptureError_deny.
  - discriminate.
  - exists (Literal "cdn."). split.
    + right; left; reflexivity.
    + exists "https://", "example/vendor.js". reflexivity.
Defined.

Lemma shouldCaptureError_allow_miss_witness :
  shouldCaptureError tt "https://other.example/x.js"
    [Literal "shop.example"] [] (Some (fun _ _ => false)) = true.
Proof.
  apply shouldCaptureError_allow_miss.
  - left; reflexivity.
  - discriminate.
  - intros entry [<-|[]] Hm. apply includes_spec in Hm.
    vm_compute in Hm. discriminate.
Defined.

(** *** The initial frame *)

Section InitialFrame.

Context {env : Environment}.

Lemma length_positive (s : string) :
  Nat.ltb 0 (String.length s) = negb (String.eqb s "").
Proof. now destruct s. Qed.

Lemma eventFrames_enhance (event : Event) (url line column : any) :
  eventFrames (enhanceEventWithInitialFrame event url line column)
  = match eventFrames event with
    | [] => [initialFrame url line column]
    | present => present
    end.
Proof.
  unfold enhanceEventWithInitialFrame, eventFrames, first_exception,
    initialFrame.
  destruct event as [[[[[|[t v [[[[|f fs]|]]|] m] rest]|]]|] msg ex tg lv];
    destruct url as [| | | |u| |]; rewrite ?length_positive;
    try destruct (String.eqb u ""); reflexivity.
Qed.

(** C4. A frame list that is not empty is left as it is, so a second call
    with the same arguments changes nothing: an event that had no frame
    has exactly one after two calls. *)
Theorem enhanceEventWithInitialFrame_idempotent
        (event : Event) (url line column : any) :
  let once := enhanceEventWithInitialFrame event url line column in
  let twice := enhanceEventWithInitialFrame once url line column in
  (eventFrames event <> [] -> eventFrames once = eventFrames event)
  /\ twice = once
  /\ (eventFrames event = [] ->
      eventFrames twice = [initialFrame url line column]).
Proof.
  intros once twice. split; [|split].
  - intros Hne. unfold once. rewrite eventFrames_enhance.
    now destruct (eventFrames event).
  - unfold twice, once, enhanceEventWithInitialFrame.
    destruct event as [[[[[|[t v [[[[|f fs]|]]|] m] rest]|]]|] msg ex tg lv];
      reflexivity.
  - intros Hempty. unfold twice, once.
    now rewrite !eventFrames_enhance, Hempty.
Qed.

End InitialFrame.

(** *** [parseInt] on the numbers *)

Lemma digits_step (c : ascii) (s : string) (acc : option Z) (d : Z) :
  digit_of c = Some d ->
  digits (String c s) acc
  = digits s (Some (match acc with Some a => 10 * a + d | None => d end)%Z).
Proof. intros H. simpl. now rewrite H. Qed.

Lemma digits_acc (u : Decimal.uint) (p : positive) :
  digits (NilEmpty.string_of_uint u) (Some (Z.pos p))
  = Some (Z.pos (Pos.of_uint_acc u p)).
Proof.
  revert p; induction u; intros p;
    cbn [NilEmpty.string_of_uint Pos.of_uint_acc]; [reflexivity | ..];
    erewrite digits_step by reflexivity;
    rewrite <- IHu; do 2 f_equal; eval_code_unit; lia.
Qed.

Lemma digits_zero (u : Decimal.uint) :
  digits (NilEmpty.string_of_uint u) (Some 0%Z)
  = Some (Z.of_N (Pos.of_uint u)).
Proof.
  induction u; cbn [NilEmpty.string_of_uint Pos.of_uint]; [reflexivity | ..];
    erewrite digits_step by reflexivity; [exact IHu | apply digits_acc ..].
Qed.

Lemma digits_none (u : Decimal.uint) :
  u <> Decimal.Nil ->
  digits (NilEmpty.string_of_uint u) None
  = Some (Z.of_N (Pos.of_uint u)).
Proof.
  intros Hu. rewrite <- digits_zero.
  destruct u; [now elim Hu | reflexivity ..].
Qed.

Lemma parseInt_string_uint (u : Decimal.uint) :
  u <> Decimal.Nil ->
  parseInt_string (NilEmpty.string_of_uint u) = Int (Z.of_N (Pos.of_uint u))
  /\ parseInt_string (String "-" (NilEmpty.string_of_uint u))
     = Int (- Z.of_N (Pos.of_uint u)).
Proof.
  intros Hu. pose proof (digits_none u Hu) as H.
  unfold parseInt_string.
  destruct u; [now elim Hu | ..];
    cbn [NilEmpty.string_of_uint trim_start] in *;
    repeat match goal with
           | |- context [is_white_space ?c] =>
               change (is_white_space c) with false
           end;
    cbv iota; rewrite H; split; f_equal; lia.
Qed.

(** [parseInt] reads an integer number back. *)
Lemma parseInt_string_Int (z : Z) :
  parseInt_string (string_of_num (Int z)) = Int z.
Proof.
  destruct z as [|p|p]; [reflexivity | ..];
    destruct (parseInt_string_uint (Pos.to_uint p)
                (DecimalPos.Unsigned.to_uint_nonnil p)) as [Hpos Hneg];
    rewrite DecimalPos.Unsigned.of_to in Hpos, Hneg;
    unfold string_of_num, NilZero.string_of_int, NilZero.string_of_uint;
    cbn [Z.to_int];
    destruct (Pos.to_uint p) eqn:Hu;
    try (now elim (DecimalPos.Unsigned.to_uint_nonnil p));
    assumption.
Qed.

Section InjectedFrame.

Context {env : Environment}.

(** C5, as amended. The frame injected into an event without frames
    has function ["?"], [in_app] true, the url as its filename when that is
    a non-empty string and the document location otherwise, and as
    [lineno] and [colno] the line and column inputs themselves when
    [parseInt] reads an integer from them, [undefined] when it does not:
    an integer number is kept, and nothing is converted. *)
Theorem enhanceEventWithInitialFrame_injected
        (event : Event) (url line column : any) :
  eventFrames event = [] ->
  exists frame,
    eventFrames (enhanceEventWithInitialFrame event url line column)
    = [frame]
    /\ function frame = Some "?"
    /\ in_app frame = Some true
    /\ lineno frame = (if isNaN (parseInt line) then undefined else line)
    /\ colno frame = (if isNaN (parseInt column) then undefined else column)
    /\ filename frame
       = Some (match url with
               | str u => if String.eqb u "" then getLocationHref else u
               | _ => getLocationHref
               end)
    /\ (forall z, line = number (Int z) -> lineno frame = number (Int z))
    /\ (forall z, column = number (Int z) -> colno frame = number (Int z)).
Proof.
  intros Hempty. exists (initialFrame url line column).
  rewrite eventFrames_enhance, Hempty.
  repeat split; simpl; intros z ->; unfold parseInt;
    change (ToString (number (Int z))) with (string_of_num (Int z));
    now rewrite parseInt_string_Int.
Qed.

End InjectedFrame.

Lemma enhanceEventWithInitialFrame_injected_witness :
  exists frame,
    eventFrames
      (enhanceEventWithInitialFrame (env := browser) empty_event
         (str "app.js") (number (Int 10)) (str "5px"))
    = [frame]
    /\ function frame = Some "?"
    /\ in_app frame = Some true
    /\ lineno frame = number (Int 10)
    /\ colno frame = str "5px"
    /\ filename frame = Some "app.js"
    /\ (forall z, number (Int 10) = number (Int z) ->
        lineno frame = number (Int z))
    /\ (forall z, str "5px" = number (Int z) -> colno frame = number (Int z)).
Proof.
  exact (enhanceEventWithInitialFrame_injected (env := browser) empty_event
           (str "app.js") (number (Int 10)) (str "5px") eq_refl).
Defined.

(** C5 as stated fails. A line given as the string ["10"] stays that
    string: the frame does not carry the number 10. *)
Lemma injected_frame_not_coerced : ~ injected_frame_coerced (env := browser).
Proof.
  intros H.
  destruct (H empty_event (str "app.js") (str "10") (str "5") eq_refl)
    as [frame [Hframes [_ [_ [Hline _]]]]].
  assert (Hcode :
            eventFrames
              (enhanceEventWithInitialFrame (env := browser) empty_event
                 (str "app.js") (str "10") (str "5"))
            = [{| filename := Some "app.js"; function := Some "?";
                  lineno := str "10"; colno := str "5";
                  in_app := Some true |}]) by reflexivity.
  rewrite Hcode in Hframes. injection Hframes as <-.
  assert (Hspec : coerced (env := browser) (str "10") = number (Int 10))
    by reflexivity.
  rewrite Hspec in Hline. discriminate.
Qed.

(** *** Exceptions from errors *)

Section FromError.

Context {env : Environment}.

Lemma get_returns (v : any) (p : string) :
  nullish v = false -> exists x, get v p = Returns x.
Proof. destruct v; try discriminate; simpl; eauto. Qed.

Lemma truthy_not_nullish (v : any) : truthy v = true -> nullish v = false.
Proof. now destruct v. Qed.

Lemma and_get_returns (v : any) (p : string) :
  exists x, and_get v p = Returns x.
Proof.
  unfold and_get. destruct (truthy v) eqn:Hv; eauto.
  now apply get_returns, truthy_not_nullish.
Qed.

Lemma extractMessage_returns (ex : any) :
  exists message, extractMessage ex = Returns message.
Proof.
  unfold extractMessage.
  destruct (and_get_returns ex "message") as [message ->]. simpl.
  destruct (truthy message) eqn:Hm; simpl; eauto.
  destruct (get_returns message "error" (truthy_not_nullish _ Hm))
    as [error ->]. simpl.
  destruct (truthy error) eqn:He; eauto.
  destruct (get_returns error "message" (truthy_not_nullish _ He))
    as [inner ->]. simpl.
  destruct (typeof inner); eauto.
Qed.

Lemma getPopSize_returns (ex : any) : exists n, getPopSize ex = Returns n.
Proof.
  unfold getPopSize. destruct (truthy ex) eqn:Hex; eauto.
  apply truthy_not_nullish in Hex.
  destruct (get_returns ex "framesToPop" Hex) as [f ->].
  destruct (get_returns ex "message" Hex) as [m ->]. simpl.
  destruct f; eauto;
    destruct (Regex.test reactMinifiedRegexp (ToString m)); eauto.
Qed.

Lemma rawStack_returns (ex : any) :
  nullish ex = false -> exists raw, rawStack ex = Returns raw.
Proof.
  intros Hex. unfold rawStack.
  destruct (get_returns ex "stacktrace" Hex) as [s ->].
  destruct (get_returns ex "stack" Hex) as [k ->]. simpl.
  destruct (truthy s); eauto.
Qed.

(** What [exceptionFromError] returns, once the frames are known. *)
Lemma exceptionFromError_eq
      (stackParser : StackParser) (ex raw name message : any) (pop : num) :
  rawStack ex = Returns raw ->
  getPopSize ex = Returns pop ->
  and_get ex "name" = Returns name ->
  extractMessage ex = Returns message ->
  let frames := try_catch (stackParser raw pop) [] in
  exceptionFromError stackParser ex
  = Returns
      {| type := name;
         value :=
           if is_undefined name && is_str message ""
           then str "Unrecoverable error caught" else message;
         stacktrace :=
           match frames with
           | [] => None
           | _ => Some {| frames := Some frames |}
           end;
         mechanism := None |}.
Proof.
  intros Hraw Hpop Hname Hmessage frames.
  unfold exceptionFromError, parseStackFrames.
  rewrite Hraw, Hpop, Hname, Hmessage. simpl. fold frames.
  destruct frames; simpl; destruct (is_undefined name && is_str message "");
    reflexivity.
Qed.

(** C6. When the stack parser throws, [parseStackFrames] returns the empty
    list and the exception has no [stacktrace] key; when it returns frames,
    the exception carries them, and there is at least one. *)
Theorem exceptionFromError_stacktrace (stackParser : StackParser) (ex : any) :
  nullish ex = false ->
  exists raw pop,
    rawStack ex = Returns raw /\ getPopSize ex = Returns pop
    /\ (forall error,
           stackParser raw pop = Throws error ->
           parseStackFrames stackParser ex = Returns []
           /\ exists exception,
               exceptionFromError stackParser ex = Returns exception
               /\ stacktrace exception = None)
    /\ (forall parsed,
           stackParser raw pop = Returns parsed -> parsed <> [] ->
           exists exception,
             exceptionFromError stackParser ex = Returns exception
             /\ stacktrace exception = Some {| frames := Some parsed |}
             /\ 0 < length parsed).
Proof.
  intros Hex.
  destruct (rawStack_returns ex Hex) as [raw Hraw].
  destruct (getPopSize_returns ex) as [pop Hpop].
  destruct (and_get_returns ex "name") as [name Hname].
  destruct (extractMessage_returns ex) as [message Hmessage].
  pose proof (exceptionFromError_eq stackParser ex raw name message pop
                Hraw Hpop Hname Hmessage) as Heq.
  exists raw, pop. split; [exact Hraw | split; [exact Hpop | split]].
  - intros error Hthrows. split.
    + unfold parseStackFrames. rewrite Hraw, Hpop. simpl.
      now rewrite Hthrows.
    + rewrite Hthrows in Heq. eexists; split; [exact Heq | reflexivity].
  - intros parsed Hparsed Hne. rewrite Hparsed in Heq.
    eexists; split; [exact Heq|]. simpl.
    destruct parsed; [now elim Hne | split; [reflexivity | simpl; lia]].
Qed.

(** C9. The exception that [exceptionFromError] returns is never empty:
    when the type is [undefined] and the message extracted is the empty
    string, the value is the fallback literal, so the type being
    [undefined] and the value being empty never come together. *)
Theorem exceptionFromError_not_empty (stackParser : StackParser) (ex : any) :
  nullish ex = false ->
  exists exception,
    exceptionFromError stackParser ex = Returns exception
    /\ ~ (type exception = undefined /\ value exception = str "")
    /\ (and_get ex "name" = Returns undefined ->
        extractMessage ex = Returns (str "") ->
        type exception = undefined
        /\ value exception = str "Unrecoverable error caught").
Proof.
  intros Hex.
  destruct (rawStack_returns ex Hex) as [raw Hraw].
  destruct (getPopSize_returns ex) as [pop Hpop].
  destruct (and_get_returns ex "name") as [name Hname].
  destruct (extractMessage_returns ex) as [message Hmessage].
  eexists. split; [|split].
  - exact (exceptionFromError_eq stackParser ex raw name message pop
             Hraw Hpop Hname Hmessage).
  - simpl. intros [-> Hvalue]. simpl in Hvalue.
    destruct message as [| | | |s| |]; try discriminate.
    simpl in Hvalue. destruct (String.eqb_spec s ""); [discriminate|].
    injection Hvalue as ->. now elim n.
  - intros Hn Hm. rewrite Hname in Hn. rewrite Hmessage in Hm.
    injection Hn as ->. injection Hm as ->. split; reflexivity.
Qed.

End FromError.

Example exceptionFromError_parser_throws :
  exceptionFromError (env := browser) failingParser thrown
  = Returns {| type := str "TypeError"; value := str "x is not a function";
               stacktrace := None; mechanism := None |}.
Proof. reflexivity. Qed.

Lemma exceptionFromError_stacktrace_witness :
  exists raw pop,
    rawStack thrown = Returns raw
    /\ getPopSize (env := browser) thrown = Returns pop
    /\ (forall error,
           oneFrameParser raw pop = Throws error ->
           parseStackFrames (env := browser) oneFrameParser thrown = Returns []
           /\ exists exception,
               exceptionFromError (env := browser) oneFrameParser thrown
               = Returns exception
               /\ stacktrace exception = None)
    /\ (forall parsed,
           oneFrameParser raw pop = Returns parsed -> parsed <> [] ->
           exists exception,
             exceptionFromError (env := browser) oneFrameParser thrown
             = Returns exception
             /\ stacktrace exception = Some {| frames := Some parsed |}
             /\ 0 < length parsed).
Proof.
  exact (exceptionFromError_stacktrace (env := browser) oneFrameParser thrown
           eq_refl).
Defined.

Example exceptionFromError_fallback :
  exceptionFromError (env := browser) failingParser emptyError
  = Returns {| type := undefined; value := str "Unrecoverable error caught";
               stacktrace := None; mechanism := None |}.
Proof. reflexivity. Qed.

Lemma exceptionFromError_not_empty_witness :
  exists exception,
    exceptionFromError (env := browser) failingParser emptyError
    = Returns exception
    /\ ~ (type exception = undefined /\ value exception = str "")
    /\ (and_get emptyError "name" = Returns undefined ->
        extractMessage emptyError = Returns (str "") ->
        type exception = undefined
        /\ value exception = str "Unrecoverable error caught").
Proof.
  exact (exceptionFromError_not_empty (env := browser) failingParser emptyError
           eq_refl).
Defined.

(** *** Messages of [onerror] *)

Section IncompleteOnError.

Context {env : Environment}.

Lemma eventFromIncompleteOnError_str (text : string) (url line column : any) :
  eventFromIncompleteOnError (str text) url line column
  = Returns
      (match String_match text ERROR_TYPES_RE with
       | Some groups =>
           onerrorEvent (group groups 1) (group groups 2) url line column
       | None => onerrorEvent (str "Error") (str text) url line column
       end).
Proof.
  unfold eventFromIncompleteOnError. rewrite isErrorEvent_str.
  cbn [bind]. now destruct (String_match text ERROR_TYPES_RE).
Qed.

(** C3, on the code. For the message ["foo"], in which no class name is
    recognized, the pattern matches with its first group left out, and the
    type of the exception is [undefined], not ["Error"]; the value is the
    message. *)
Theorem eventFromIncompleteOnError_no_class :
  String_match "foo" ERROR_TYPES_RE = Some [Some "foo"; None; Some "foo"]
  /\ eventFromIncompleteOnError
       (str "foo") (str "app.js") (number (Int 10)) (number (Int 5))
     = Returns
         (set_exception empty_event
            {| values :=
                Some [{| type := undefined; value := str "foo";
                         stacktrace :=
                           Some {| frames :=
                                    Some [{| filename := Some "app.js";
                                             function := Some "?";
                                             lineno := number (Int 10);
                                             colno := number (Int 5);
                                             in_app := Some true |}] |};
                         mechanism := None |}] |}).
Proof.
  split; [reflexivity|]. now rewrite eventFromIncompleteOnError_str.
Qed.

(** C8. The message ["Uncaught TypeError: x is not a function"] at
    [app.js], line 10, column 5, gives one exception of type ["TypeError"]
    with value ["x is not a function"] and the one frame of that
    position. *)
Theorem eventFromIncompleteOnError_TypeError :
  eventFromIncompleteOnError
    (str "Uncaught TypeError: x is not a function")
    (str "app.js") (number (Int 10)) (number (Int 5))
  = Returns
      (set_exception empty_event
         {| values :=
             Some [{| type := str "TypeError";
                      value := str "x is not a function";
                      stacktrace :=
                        Some {| frames :=
                                 Some [{| filename := Some "app.js";
                                          function := Some "?";
                                          lineno := number (Int 10);
                                          colno := number (Int 5);
                                          in_app := Some true |}] |};
                      mechanism := None |}] |}).
Proof.
  rewrite eventFromIncompleteOnError_str.
  assert (Hgroups :
            String_match "Uncaught TypeError: x is not a function"
                         ERROR_TYPES_RE
            = Some [Some "Uncaught TypeError: x is not a function";
                    Some "TypeError"; Some "x is not a function"])
    by reflexivity.
  rewrite Hgroups. unfold onerrorEvent, group. cbn [nth_error].
  reflexivity.
Qed.

(** Other messages without a class name: the prefix is stripped and the
    type is [undefined]. *)
Example eventFromIncompleteOnError_prefix_only :
  eventFromIncompleteOnError
    (str "Uncaught exception: boom") (str "") undefined undefined
  = Returns
      (onerrorEvent undefined (str "boom") (str "") undefined undefined).
Proof. now rewrite eventFromIncompleteOnError_str. Qed.

End IncompleteOnError.

(** *** The handlers of [MFESentry] *)

Section Handlers.

Context {env : Environment}.

Lemma primitive_own_request (reason : any) :
  isPrimitive reason = true ->
  exists flagged,
    and_get reason "__sentry_own_request__" = Returns flagged
    /\ truthy flagged = false.
Proof.
  intros Hprimitive. unfold and_get.
  destruct (truthy reason) eqn:Htruthy; [|eauto].
  destruct reason; try discriminate; simpl; eauto.
Qed.


(** Such an event has no frame to take a url from, and the handler
    forwards nothing. *)
Lemma handleUnhandledRejection_primitive (self : MFESentry) (e : any) :
  isPrimitive (rejectionReason e) = true ->
  handleUnhandledRejection self e = ([], Returns undefined).
Proof.
  intros Hprimitive. unfold handleUnhandledRejection.
  destruct (primitive_own_request _ Hprimitive) as [flagged [-> Hflag]].
  cbn [after]. rewrite Hflag.
  unfold rejectionEvent. destruct (getHubOptions self) as [[[? ?] ?] ?].
  now rewrite Hprimitive.
Qed.

(** With no error object and a string for a message, [handleOnError] takes
    the path of [eventFromIncompleteOnError]. *)
Lemma handleOnError_incomplete (self : MFESentry) (data : ErrorEvent)
      (text : string) :
  data_error data = undefined ->
  data_message data = str text ->
  handleOnError self data
  = let '(_, _, allowUrls, denyUrls) := getHubOptions self in
    if shouldCaptureError undefined (data_filename data) allowUrls denyUrls
                          None
    then
      after (eventFromIncompleteOnError
               (str text) (str (data_filename data)) (data_lineno data)
               (data_colno data))
            (fun event =>
               addMechanismAndCapture (hub self) undefined
                 (set_level event "error") "onerror")
    else ([], Returns tt).
Proof.
  intros Herror Hmessage. unfold handleOnError.
  rewrite Herror, Hmessage.
  destruct (getHubOptions self) as [[[parser attach] allow] deny].
  now destruct (shouldCaptureError undefined (data_filename data) allow deny
                                   None).
Qed.

(** C10. Without the force flag, an error that is an [AxiosError] or has
    the name ["NetworkError"] is not forwarded; an error is forwarded only
    with the force flag or when [isNetworkError] answers false, and then it
    is, to a hub that is bound. *)
Theorem captureExecption_network_error
        (self : MFESentry) (error hint : any) (force : option bool) :
  (instanceofAxiosError error = true
   \/ get error "name" = Returns (str "NetworkError") ->
   flag force = false ->
   captureExecption self error hint force = ([], Returns tt))
  /\ (fst (captureExecption self error hint force) <> [] ->
      flag force = true \/ isNetworkError error = Returns false)
  /\ (hub self <> None ->
      flag force = true \/ isNetworkError error = Returns false ->
      captureExecption self error hint force
      = ([captureException error hint], Returns tt)).
Proof.
  unfold captureExecption. split; [|split].
  - intros Hnetwork ->.
    assert (Hn : isNetworkError error = Returns true).
    { unfold isNetworkError. destruct Hnetwork as [-> | Hname]; trivial.
      destruct (instanceofAxiosError error); trivial.
      destruct error as [| | | | |props|props]; try discriminate;
        simpl in *; destruct (lookup "name" props); try discriminate;
        injection Hname as ->; reflexivity. }
    rewrite Hn. now destruct (hub self).
  - destruct (hub self); [|now intros []].
    destruct (flag force); [now left|].
    destruct (isNetworkError error) as [[]|]; simpl;
      [now intros [] | now right | now intros []].
  - intros Hhub Hforward. destruct (hub self); [|now elim Hhub].
    destruct (flag force); trivial.
    destruct Hforward as [Hforce | ->]; [discriminate | reflexivity].
Qed.

End Handlers.

(** *** The handlers at work *)

Lemma enhanceEventWithInitialFrame_idempotent_witness :
  eventFrames
    (enhanceEventWithInitialFrame (env := browser)
       (enhanceEventWithInitialFrame (env := browser) empty_event
          (str "app.js") (number (Int 10)) (number (Int 5)))
       (str "app.js") (number (Int 10)) (number (Int 5)))
  = [{| filename := Some "app.js"; function := Some "?";
        lineno := number (Int 10); colno := number (Int 5);
        in_app := Some true |}].
Proof.
  apply (proj2 (proj2 (enhanceEventWithInitialFrame_idempotent
                         (env := browser) empty_event
                         (str "app.js") (number (Int 10)) (number (Int 5))))).
  reflexivity.
Defined.


Example rejection_in_detail :
  rejectionReason
    (object [("type", str "unhandledrejection");
             ("detail", object [("promise", object []);
                                ("reason", number (Int 404))])])
  = number (Int 404)
  /\ _eventFromRejectionWithPrimitive (env := browser) (number (Int 404))
     = set_exception empty_event
         {| values :=
             Some [{| type := str "UnhandledRejection";
                      value :=
                        str "Non-Error promise rejection captured with value: 404";
                      stacktrace := None; mechanism := None |}] |}.
Proof. split; reflexivity. Qed.

Lemma captureExecption_network_error_witness :
  captureExecption (env := browser) bound axiosError undefined None
  = ([], Returns tt).
Proof.
  apply (proj1 (captureExecption_network_error (env := browser)
                  bound axiosError undefined None)).
  - left; reflexivity.
  - reflexivity.
Defined.

Example captureExecption_forced :
  captureExecption (env := browser) bound axiosError undefined (Some true)
  = ([captureException axiosError undefined], Returns tt).
Proof. reflexivity. Qed.

Example captureExecption_of_a_string :
  captureExecption (env := browser) bound (str "boom") undefined None
  = ([], Throws "TypeError").
Proof. reflexivity. Qed.

Example handleOnError_TypeError :
  handleOnError (env := browser) bound
    {| data_message := str "Uncaught TypeError: x is not a function";
       data_filename := "app.js"; data_lineno := number (Int 10);
       data_colno := number (Int 5); data_error := undefined |}
  = ([captureEvent
        {| exception :=
            Some {| values :=
                     Some [{| type := str "TypeError";
                              value := str "x is not a function";
                              stacktrace :=
                                Some {| frames :=
                                         Some [{| filename := Some "app.js";
                                                  function := Some "?";
                                                  lineno := number (Int 10);
                                                  colno := number (Int 5);
                                                  in_app := Some true |}] |};
                              mechanism :=
                                Some [("type", str "onerror");
                                      ("handled", boolean false)] |}] |};
           message := undefined; extra := None; tags := None;
           level := Some "error" |}
        (object [("originalException", undefined)])],
     Returns tt).
Proof. reflexivity. Qed.

Example handleOnError_denied :
  handleOnError (env := browser) bound
    {| data_message := str "Uncaught TypeError: x is not a function";
       data_filename := "https://cdn.example/vendor.js";
       data_lineno := number (Int 10); data_colno := number (Int 5);
       data_error := undefined |}
  = ([], Returns tt).
Proof. reflexivity. Qed.

(** *** When [ERROR_TYPES_RE] matches *)

Lemma run_seq (ignoreCase : bool) (input : string) (r1 r2 : regex) (i : nat)
      (s : string) (caps : captures) (k : continuation) :
  run ignoreCase input (Seq r1 r2) i s caps k
  = run ignoreCase input r1 i s caps
        (fun i' s' caps' => run ignoreCase input r2 i' s' caps' k).
Proof. reflexivity. Qed.

Lemma run_group (ignoreCase : bool) (input : string) (n : nat) (r : regex)
      (i : nat) (s : string) (caps : captures) (k : continuation) :
  run ignoreCase input (Group n r) i s caps k
  = run ignoreCase input r i s caps
        (fun i' s' caps' =>
           k i' s' (set_group n (substring i (i' - i) input) caps')).
Proof. reflexivity. Qed.

Lemma run_opt (ignoreCase : bool) (input : string) (r : regex) (i : nat)
      (s : string) (caps : captures) (k : continuation) :
  k i s caps <> None -> run ignoreCase input (Opt r) i s caps k <> None.
Proof.
  intros Hk. cbn [run]. now destruct (run ignoreCase input r i s caps k).
Qed.

Lemma run_star_dot (ignoreCase : bool) (input : string) (s : string) :
  forall (i : nat) (caps : captures) (k : continuation),
    single_line s = true ->
    (forall j caps', k j "" caps' <> None) ->
    run ignoreCase input (Star Dot) i s caps k <> None.
Proof.
  induction s as [|c s IH]; intros i caps k Hs Hk.
  - apply Hk.
  - simpl in Hs. apply andb_true_iff in Hs as [Hc Hs].
    change (run ignoreCase input (Star Dot) i (String c s) caps k)
      with (if atom_matches ignoreCase Dot c then
              match run ignoreCase input (Star Dot) (S i) s caps k with
              | Some m => Some m
              | None => k i (String c s) caps
              end
            else k i (String c s) caps).
    cbn [atom_matches]. rewrite Hc.
    specialize (IH (S i) caps k Hs Hk).
    now destruct (run ignoreCase input (Star Dot) (S i) s caps k).
Qed.

(** A message without line terminators always matches: the type ["Error"]
    that [name] starts with is then overwritten by the first group. *)
Lemma ERROR_TYPES_RE_single_line (text : string) :
  single_line text = true -> String_match text ERROR_TYPES_RE <> None.
Proof.
  intros Htext. unfold String_match, ERROR_TYPES_RE, Regex.literal.
  cbn [exec cat alt].
  match goal with
  | |- search ?ic ?input ?r 0 ?s <> None =>
      assert (Hrun : run ic input r 0 s (repeat None (groups r))
                         (fun j _ caps => Some (j, caps)) <> None)
  end.
  { rewrite run_seq.
    change (run true text Bol 0 text ?caps ?k) with (k 0 text caps).
    cbv beta. rewrite run_seq. apply run_opt.
    rewrite run_seq. apply run_opt.
    rewrite run_seq, run_group. apply run_star_dot; [exact Htext|].
    intros j caps'. discriminate. }
  destruct text; cbn [search];
    match goal with
    | |- match ?m with _ => _ end <> None =>
        destruct m as [[j caps]|]; [discriminate | now elim Hrun]
    end.
Qed.

Example eventFromIncompleteOnError_two_lines :
  eventFromIncompleteOnError (env := browser)
    (str ("Uncaught foo" ++ String (ascii_of_nat 10) "bar"))
    (str "app.js") (number (Int 10)) (number (Int 5))
  = Returns
      (onerrorEvent (env := browser) (str "Error")
         (str ("Uncaught foo" ++ String (ascii_of_nat 10) "bar"))
         (str "app.js") (number (Int 10)) (number (Int 5))).
Proof. reflexivity. Qed.

(** *** What a match consumes *)

Lemma append_assoc (a b c : string) : ((a ++ b) ++ c = a ++ (b ++ c))%string.
Proof. induction a as [|x a IH]; simpl; [reflexivity | now rewrite IH]. Qed.

Lemma append_empty (a : string) : (a ++ "" = a)%string.
Proof. induction a as [|x a IH]; simpl; [reflexivity | now rewrite IH]. Qed.

Lemma length_append (a b : string) :
  String.length (a ++ b) = String.length a + String.length b.
Proof. induction a as [|x a IH]; simpl; [reflexivity | now rewrite IH]. Qed.

Lemma starts_at_next (input : string) (i : nat) (c : ascii) (s : string) :
  starts_at input i (String c s) -> starts_at input (S i) s.
Proof.
  intros [before [Hinput Hlen]]. exists (before ++ String c "")%string. split.
  - rewrite Hinput. now rewrite append_assoc.
  - rewrite length_append. simpl. lia.
Qed.

Lemma length_set_group (n : nat) (v : string) (caps : captures) :
  length (set_group n v caps) = length caps.
Proof.
  revert n; induction caps as [|c caps IH]; intros [|[|n]]; trivial.
  change (set_group (S (S n)) v (c :: caps))
    with (c :: set_group (S n) v caps).
  change (S (length (set_group (S n) v caps)) = S (length caps)).
  f_equal. apply IH.
Qed.

Lemma set_group_0 (v : string) (caps : captures) : set_group 0 v caps = caps.
Proof. now destruct caps. Qed.

Section RunInvariant.

Variable ignoreCase : bool.
Variable input : string.

(** How the captures on leaving a pattern relate to those on entering. *)
Variable keep : captures -> captures -> Prop.
Hypothesis keep_refl : forall caps, keep caps caps.
Hypothesis keep_trans :
  forall a b c, keep a b -> keep b c -> keep a c.

Local Abbreviation reached := (reached input keep).

Lemma reached_here (i : nat) (s : string) (caps : captures)
      (k : continuation) (res : nat * captures) :
  starts_at input i s -> k i s caps = Some res -> reached i s caps k res.
Proof.
  intros Hat Hk. exists i, s, caps, "". repeat split; trivial; simpl; lia.
Qed.

Lemma reached_next (i : nat) (c : ascii) (s : string) (caps : captures)
      (k : continuation) (res : nat * captures) :
  reached (S i) s caps k res -> reached i (String c s) caps k res.
Proof.
  intros [i' [s' [caps' [consumed [Hat [Hs [Hi [Hkeep Hk]]]]]]]].
  exists i', s', caps', (String c consumed). repeat split; trivial.
  - simpl. now rewrite Hs.
  - simpl. lia.
Qed.

Lemma run_lit_reached (l : string) :
  forall (i : nat) (s : string) (caps : captures) (k : continuation)
         (res : nat * captures),
    starts_at input i s ->
    run ignoreCase input (Lit l) i s caps k = Some res ->
    reached i s caps k res.
Proof.
  induction l as [|p l IH]; intros i s caps k res Hat Hrun.
  - now apply reached_here.
  - destruct s as [|c s]; [discriminate|].
    change (run ignoreCase input (Lit (String p l)) i (String c s) caps k)
      with (if same ignoreCase p c
            then run ignoreCase input (Lit l) (S i) s caps k else None)
      in Hrun.
    destruct (same ignoreCase p c); [|discriminate].
    apply reached_next, IH; trivial. now apply starts_at_next in Hat.
Qed.

Lemma run_star_reached (a : atom) (s : string) :
  forall (i : nat) (caps : captures) (k : continuation)
         (res : nat * captures),
    starts_at input i s ->
    run ignoreCase input (Star a) i s caps k = Some res ->
    reached i s caps k res.
Proof.
  induction s as [|c s IH]; intros i caps k res Hat Hrun.
  - now apply reached_here.
  - change (run ignoreCase input (Star a) i (String c s) caps k)
      with (if atom_matches ignoreCase a c then
              match run ignoreCase input (Star a) (S i) s caps k with
              | Some m => Some m
              | None => k i (String c s) caps
              end
            else k i (String c s) caps) in Hrun.
    destruct (atom_matches ignoreCase a c); [|now apply reached_here].
    destruct (run ignoreCase input (Star a) (S i) s caps k) as [m|] eqn:Hrest;
      [|now apply reached_here].
    injection Hrun as ->.
    apply reached_next, IH; trivial. now apply starts_at_next in Hat.
Qed.

Lemma reached_trans (i : nat) (s : string) (caps : captures)
      (k1 k : continuation) (res : nat * captures) :
  (forall i' s' caps' r,
      starts_at input i' s' -> k1 i' s' caps' = Some r ->
      reached i' s' caps' k r) ->
  reached i s caps k1 res -> reached i s caps k res.
Proof.
  intros Hk1 [i1 [s1 [caps1 [consumed1 [Hat1 [Hs1 [Hi1 [Hkeep1 Hrun1]]]]]]]].
  destruct (Hk1 i1 s1 caps1 res Hat1 Hrun1)
    as [i2 [s2 [caps2 [consumed2 [Hat2 [Hs2 [Hi2 [Hkeep2 Hrun2]]]]]]]].
  exists i2, s2, caps2, (consumed1 ++ consumed2)%string. repeat split; trivial.
  - rewrite Hs1, Hs2. now rewrite append_assoc.
  - rewrite length_append. lia.
  - now apply keep_trans with caps1.
Qed.

(** Whatever a pattern does, the rest of the match goes on from a later
    point of the same input, with captures that only its own groups have
    touched. *)
Lemma run_reached (r : regex) :
  (forall n v caps, n <= groups r -> keep caps (set_group n v caps)) ->
  forall (i : nat) (s : string) (caps : captures) (k : continuation)
         (res : nat * captures),
    starts_at input i s ->
    run ignoreCase input r i s caps k = Some res ->
    reached i s caps k res.
Proof.
  induction r as [|l|a|r1 IH1 r2 IH2|r1 IH1 r2 IH2|r IH|a|n r IH| |];
    intros Hset i s caps k res Hat Hrun.
  - now apply reached_here.
  - now apply (run_lit_reached l).
  - destruct s as [|c s]; [discriminate|]. cbn [run] in Hrun.
    destruct (atom_matches ignoreCase a c); [|discriminate].
    apply reached_next, reached_here; trivial. now apply starts_at_next in Hat.
  - rewrite run_seq in Hrun. apply IH1 in Hrun; trivial.
    + revert Hrun. apply reached_trans. intros i' s' caps' r Hat' Hr.
      apply IH2; trivial. intros n v c Hn. apply Hset. simpl. lia.
    + intros n v c Hn. apply Hset. simpl. lia.
  - cbn [run] in Hrun.
    destruct (run ignoreCase input r1 i s caps k) as [m|] eqn:H1.
    + injection Hrun as ->. apply IH1; trivial.
      intros n v c Hn. apply Hset. simpl. lia.
    + apply IH2; trivial. intros n v c Hn. apply Hset. simpl. lia.
  - cbn [run] in Hrun.
    destruct (run ignoreCase input r i s caps k) as [m|] eqn:H1.
    + injection Hrun as ->. now apply IH.
    + now apply reached_here.
  - now apply (run_star_reached a).
  - rewrite run_group in Hrun. apply IH in Hrun; trivial.
    + destruct Hrun as [i' [s' [caps' [consumed [Hat' [Hs [Hi [Hkeep Hk]]]]]]]].
      exists i', s', (set_group n (substring i (i' - i) input) caps'), consumed.
      repeat split; trivial. apply keep_trans with caps'; trivial.
      apply Hset. simpl. lia.
    + intros m v c Hm. apply Hset. simpl. lia.
  - cbn [run] in Hrun. destruct (Nat.eqb i 0); [|discriminate].
    now apply reached_here.
  - destruct s; [|discriminate]. now apply reached_here.
Qed.

End RunInvariant.

(** *** The groups of [ERROR_TYPES_RE] *)

Lemma ERROR_TYPES_RE_exec (text : string) :
  exec ERROR_TYPES_RE text = search true text (Seq Bol error_types) 0 text.
Proof. reflexivity. Qed.

Lemma search_anchored (ignoreCase : bool) (input : string) (r : regex)
      (s : string) :
  forall i, search ignoreCase input (Seq Bol r) (S i) s = None.
Proof.
  induction s as [|c s IH]; intros i; cbn [search]; rewrite run_seq;
    change (run ignoreCase input Bol (S i) ?s ?caps ?k) with (@None (nat * captures));
    [reflexivity | apply IH].
Qed.

Lemma search_from_start (ignoreCase : bool) (input : string) (r : regex)
      (s : string) :
  search ignoreCase input (Seq Bol r) 0 s
  = match run ignoreCase input r 0 s (repeat None (groups r)) accept with
    | Some (j, caps) => Some (Some (substring 0 (j - 0) input) :: caps)
    | None => None
    end.
Proof.
  destruct s as [|c s]; cbn [search]; rewrite run_seq;
    change (run ignoreCase input Bol 0 ?s ?caps ?k) with (k 0 s caps);
    cbv beta; change (groups (Seq Bol r)) with (groups r); fold accept;
    destruct (run ignoreCase input r 0 _ (repeat None (groups r)) accept)
      as [[j caps]|]; trivial.
  apply search_anchored.
Qed.

Lemma substring_all (s : string) : substring 0 (String.length s) s = s.
Proof. induction s as [|c s IH]; simpl; [reflexivity | now rewrite IH]. Qed.

Lemma substring_prefix (mid rest : string) :
  substring 0 (String.length mid) (mid ++ rest) = mid.
Proof.
  induction mid as [|c mid IH]; simpl; [now destruct rest | now rewrite IH].
Qed.

Lemma substring_middle (before mid rest : string) :
  substring (String.length before) (String.length mid) (before ++ mid ++ rest)
  = mid.
Proof.
  induction before as [|c before IH]; simpl; [apply substring_prefix | exact IH].
Qed.

Lemma same_colon (c : ascii) : same true ":" c = true -> c = ":"%char.
Proof.
  destruct c as [[] [] [] [] [] [] [] []]; vm_compute; intros H;
    (reflexivity || discriminate).
Qed.

Lemma same_space (c : ascii) : same true " " c = true -> c = " "%char.
Proof.
  destruct c as [[] [] [] [] [] [] [] []]; vm_compute; intros H;
    (reflexivity || discriminate).
Qed.

Lemma run_colon_space (input : string) (i : nat) (s : string)
      (caps : captures) (k : continuation) (res : nat * captures) :
  run true input (Lit ": ") i s caps k = Some res ->
  exists s', s = (": " ++ s')%string /\ k (S (S i)) s' caps = Some res.
Proof.
  intros Hrun. destruct s as [|c1 [|c2 s']]; try discriminate.
  - cbn [run] in Hrun. destruct (same true ":" c1); discriminate.
  - cbn [run] in Hrun.
    destruct (same true ":" c1) eqn:H1; [|discriminate].
    destruct (same true " " c2) eqn:H2; [|discriminate].
    apply same_colon in H1. apply same_space in H2. subst.
    now exists s'.
Qed.

(** The second group takes all that is left, and the match ends with the
    input. *)
Lemma message_tail_groups (text : string) (i : nat) (s : string)
      (first second : option string) (j : nat) (caps : captures) :
  starts_at text i s ->
  run true text message_tail i s [first; second] accept = Some (j, caps) ->
  j = String.length text /\ caps = [first; Some s].
Proof.
  intros Hat Hrun. unfold message_tail in Hrun.
  rewrite run_seq, run_group in Hrun.
  apply (run_star_reached true text eq (@eq_refl _)) in Hrun; trivial.
  destruct Hrun as [i' [s' [caps' [consumed [Hat' [Hs [Hi [<- Hend]]]]]]]].
  destruct s' as [|c s']; [|discriminate]. cbn [run] in Hend.
  injection Hend as <- <-.
  destruct Hat as [before [Htext Hbefore]].
  destruct Hat' as [before' [Htext' Hbefore']].
  rewrite append_empty in Hs, Htext'. subst s before'. split.
  - lia.
  - cbn [set_group]. do 3 f_equal.
    replace (i' - i) with (String.length consumed) by lia.
    rewrite Htext, <- Hbefore.
    rewrite <- (append_empty consumed) at 2. apply substring_middle.
Qed.

Lemma run_opt_cases (ignoreCase : bool) (input : string) (r : regex)
      (i : nat) (s : string) (caps : captures) (k : continuation)
      (res : nat * captures) :
  run ignoreCase input (Opt r) i s caps k = Some res ->
  run ignoreCase input r i s caps k = Some res \/ k i s caps = Some res.
Proof.
  cbn [run]. destruct (run ignoreCase input r i s caps k); auto.
Qed.

Lemma no_group_keeps (r : regex) :
  groups r = 0 ->
  forall n v (caps : captures), n <= groups r -> caps = set_group n v caps.
Proof.
  intros Hr n v caps Hn. rewrite Hr in Hn.
  replace n with 0 by lia. now rewrite set_group_0.
Qed.

(** *** Messages of several lines *)

Lemma same_terminator (ignoreCase : bool) (p c : ascii) :
  is_line_terminator c = true -> same ignoreCase p c = true ->
  is_line_terminator p = true.
Proof.
  destruct c as [[] [] [] [] [] [] [] []]; try discriminate; intros _;
    destruct ignoreCase;
    destruct p as [[] [] [] [] [] [] [] []]; vm_compute; intros H;
    (reflexivity || discriminate).
Qed.

Lemma mem_terminator (ignoreCase : bool) (c : ascii) (members : string) :
  single_line members = true -> mem (same ignoreCase) c members = true ->
  is_line_terminator c = false.
Proof.
  induction members as [|p members IH]; [discriminate|].
  simpl. intros Hsafe Hmem.
  apply andb_true_iff in Hsafe as [Hp Hrest].
  apply orb_true_iff in Hmem as [Hsame|Hmem]; [|now apply IH].
  destruct (is_line_terminator c) eqn:Hc; trivial.
  rewrite (same_terminator ignoreCase p c Hc Hsame) in Hp. discriminate.
Qed.

Lemma atom_terminator (ignoreCase : bool) (a : atom) (c : ascii) :
  safe_atom a = true -> atom_matches ignoreCase a c = true ->
  is_line_terminator c = false.
Proof.
  destruct a as [members|]; simpl.
  - apply mem_terminator.
  - intros _ H. now apply negb_true_iff in H.
Qed.

Lemma single_line_next (c : ascii) (s : string) :
  single_line (String c s) = false -> is_line_terminator c = false ->
  single_line s = false.
Proof. intros H Hc. cbn [single_line] in H. now rewrite Hc in H. Qed.

Section Blocked.

Variable ignoreCase : bool.
Variable input : string.

Lemma run_lit_blocked (l : string) (caps : captures) (k : continuation) :
  single_line l = true -> blocked k ->
  forall i s, single_line s = false ->
              run ignoreCase input (Lit l) i s caps k = None.
Proof.
  intros Hl Hk. induction l as [|p l IH]; intros i s Hs.
  - now apply Hk.
  - destruct s as [|c s]; [reflexivity|].
    change (run ignoreCase input (Lit (String p l)) i (String c s) caps k)
      with (if same ignoreCase p c
            then run ignoreCase input (Lit l) (S i) s caps k else None).
    simpl in Hl. apply andb_true_iff in Hl as [Hp Hl].
    destruct (same ignoreCase p c) eqn:Hsame; trivial.
    apply IH; trivial. apply single_line_next with c; trivial.
    destruct (is_line_terminator c) eqn:Hc; trivial.
    rewrite (same_terminator ignoreCase p c Hc Hsame) in Hp. discriminate.
Qed.

Lemma run_star_blocked (a : atom) (caps : captures) (k : continuation) :
  safe_atom a = true -> blocked k ->
  forall s i, single_line s = false ->
              run ignoreCase input (Star a) i s caps k = None.
Proof.
  intros Ha Hk. induction s as [|c s IH]; intros i Hs.
  - discriminate.
  - change (run ignoreCase input (Star a) i (String c s) caps k)
      with (if atom_matches ignoreCase a c then
              match run ignoreCase input (Star a) (S i) s caps k with
              | Some m => Some m
              | None => k i (String c s) caps
              end
            else k i (String c s) caps).
    destruct (atom_matches ignoreCase a c) eqn:Hc; [|now apply Hk].
    rewrite IH; [now apply Hk|].
    apply single_line_next with c; trivial.
    now apply atom_terminator with ignoreCase a.
Qed.

(** With a line terminator ahead, a pattern that cannot take it fails when
    what follows it does. *)
Lemma run_blocked (r : regex) :
  safe r = true ->
  forall k, blocked k ->
            blocked (fun i s caps => run ignoreCase input r i s caps k).
Proof.
  induction r as [|l|a|r1 IH1 r2 IH2|r1 IH1 r2 IH2|r IH|a|n r IH| |];
    intros Hr k Hk i s caps Hs.
  - now apply Hk.
  - now apply run_lit_blocked.
  - destruct s as [|c s]; [reflexivity|]. cbn [run].
    destruct (atom_matches ignoreCase a c) eqn:Hc; trivial.
    apply Hk. apply single_line_next with c; trivial.
    now apply atom_terminator with ignoreCase a.
  - simpl in Hr. apply andb_true_iff in Hr as [H1 H2].
    rewrite run_seq. apply (IH1 H1); trivial. now apply IH2.
  - simpl in Hr. apply andb_true_iff in Hr as [H1 H2].
    cbn [run]. rewrite (IH1 H1 k Hk i s caps Hs). now apply IH2.
  - cbn [run]. rewrite (IH Hr k Hk i s caps Hs). now apply Hk.
  - now apply run_star_blocked.
  - rewrite run_group. apply (IH Hr); trivial.
    intros i' s' caps' Hs'. now apply Hk.
  - cbn [run]. destruct (Nat.eqb i 0); trivial. now apply Hk.
  - destruct s; [discriminate | reflexivity].
Qed.

Lemma eol_blocked (k : continuation) :
  blocked (fun i s caps => run ignoreCase input Eol i s caps k).
Proof. intros i [|c s] caps Hs; [discriminate | reflexivity]. Qed.

End Blocked.

Lemma error_types_multi_line (text : string) :
  single_line text = false ->
  run true text error_types 0 text [None; None] accept = None.
Proof.
  intros Htext. unfold error_types, message_tail.
  apply (run_blocked true text
           (Seq (Opt uncaught_prefix)
                (Seq (Opt (Seq (Group 1 error_class) (Lit ": ")))
                     (Group 2 (Star Dot))))
           eq_refl
           (fun i s caps => run true text Eol i s caps accept)
           (eol_blocked true text accept) 0 text [None; None]) in Htext.
  exact Htext.
Qed.

(** *** What [ERROR_TYPES_RE] strips *)

Lemma same_text_append (l1 l2 m1 m2 : string) :
  same_text l1 m1 = true -> same_text l2 m2 = true ->
  same_text (l1 ++ l2) (m1 ++ m2) = true.
Proof.
  revert m1; induction l1 as [|p l1 IH]; intros [|c m1]; try discriminate;
    cbn [same_text append]; trivial.
  intros H1 H2. apply andb_true_iff in H1 as [Hc H1].
  now rewrite Hc, IH.
Qed.

Lemma starts_at_skip (input : string) (i : nat) (consumed s : string) :
  starts_at input i (consumed ++ s) ->
  starts_at input (i + String.length consumed) s.
Proof.
  intros [before [Hinput Hlen]]. exists (before ++ consumed)%string. split.
  - now rewrite append_assoc.
  - rewrite length_append. lia.
Qed.

Lemma run_alt_cases (ignoreCase : bool) (input : string) (r1 r2 : regex)
      (i : nat) (s : string) (caps : captures) (k : continuation)
      (res : nat * captures) :
  run ignoreCase input (Alt r1 r2) i s caps k = Some res ->
  run ignoreCase input r1 i s caps k = Some res
  \/ run ignoreCase input r2 i s caps k = Some res.
Proof.
  cbn [run]. destruct (run ignoreCase input r1 i s caps k); auto.
Qed.

(** A literal consumes a text that is the literal up to case. *)
Lemma run_lit_exact (input : string) (l : string) :
  forall (i : nat) (s : string) (caps : captures) (k : continuation)
         (res : nat * captures),
    run true input (Lit l) i s caps k = Some res ->
    exists consumed s',
      s = (consumed ++ s')%string
      /\ same_text l consumed = true
      /\ k (i + String.length consumed) s' caps = Some res.
Proof.
  induction l as [|p l IH]; intros i s caps k res Hrun.
  - exists "", s. repeat split. now rewrite Nat.add_0_r.
  - destruct s as [|c s]; [discriminate|].
    change (run true input (Lit (String p l)) i (String c s) caps k)
      with (if same true p c
            then run true input (Lit l) (S i) s caps k else None) in Hrun.
    destruct (same true p c) eqn:Hsame; [|discriminate].
    apply IH in Hrun as [consumed [s' [Hs [Hl Hk]]]].
    exists (String c consumed), s'. repeat split.
    + simpl. now rewrite Hs.
    + cbn [same_text]. now rewrite Hsame.
    + simpl. now rewrite <- plus_n_Sm.
Qed.

Lemma run_atom_cases (ignoreCase : bool) (input : string) (a : atom)
      (i : nat) (s : string) (caps : captures) (k : continuation)
      (res : nat * captures) :
  run ignoreCase input (Atom a) i s caps k = Some res ->
  exists c s',
    s = String c s' /\ atom_matches ignoreCase a c = true
    /\ k (S i) s' caps = Some res.
Proof.
  destruct s as [|c s]; [discriminate|]. cbn [run].
  destruct (atom_matches ignoreCase a c) eqn:Hc; [|discriminate].
  intros Hk. now exists c, s.
Qed.

Lemma class_Uu (c : ascii) :
  atom_matches true (Class "Uu") c = true -> same true "u" c = true.
Proof.
  destruct c as [[] [] [] [] [] [] [] []]; vm_compute; intros H;
    (reflexivity || discriminate).
Qed.

(** The optional prefix takes nothing, or ["uncaught "], or
    ["uncaught exception: "], in any case of the letters. *)
Lemma uncaught_prefix_cases (input : string) (i : nat) (s : string)
      (caps : captures) (k : continuation) (res : nat * captures) :
  run true input (Opt uncaught_prefix) i s caps k = Some res ->
  exists skipped s',
    s = (skipped ++ s')%string
    /\ k (i + String.length skipped) s' caps = Some res
    /\ (skipped = ""
        \/ same_text "uncaught " skipped = true
        \/ same_text "uncaught exception: " skipped = true).
Proof.
  intros Hrun. apply run_opt_cases in Hrun as [Hprefix|Hnone].
  - change uncaught_prefix
      with (Seq (Atom (Class "Uu"))
                (Seq (Lit "ncaught ") (Opt (Lit "exception: ")))) in Hprefix.
    rewrite run_seq in Hprefix.
    apply run_atom_cases in Hprefix as [c [s0 [-> [Hc Hprefix]]]].
    apply class_Uu in Hc. rewrite run_seq in Hprefix.
    apply run_lit_exact in Hprefix as [m1 [s1 [Hs1 [Hm1 Hrest]]]].
    apply run_opt_cases in Hrest as [Hexception|Hplain].
    + apply run_lit_exact in Hexception as [m2 [s2 [Hs2 [Hm2 Hk]]]].
      exists (String c (m1 ++ m2)), s2. repeat split.
      * simpl. now rewrite Hs1, Hs2, append_assoc.
      * simpl. rewrite length_append.
        now replace (i + S (String.length m1 + String.length m2))
          with (S i + String.length m1 + String.length m2) by lia.
      * right; right.
        change "uncaught exception: "
          with (String "u" ("ncaught " ++ "exception: ")).
        cbn [same_text]. rewrite Hc. now apply same_text_append.
    + exists (String c m1), s1. repeat split.
      * simpl. now rewrite Hs1.
      * simpl. now replace (i + S (String.length m1))
          with (S i + String.length m1) by lia.
      * right; left.
        change "uncaught " with (String "u" "ncaught ").
        cbn [same_text]. now rewrite Hc.
  - exists "", s. repeat split; auto. now rewrite Nat.add_0_r.
Qed.

(** The class takes one of the eight names, in any case of the letters. *)
Lemma error_class_cases (input : string) (i : nat) (s : string)
      (caps : captures) (k : continuation) (res : nat * captures) :
  run true input error_class i s caps k = Some res ->
  exists name s',
    s = (name ++ s')%string
    /\ k (i + String.length name) s' caps = Some res
    /\ exists class,
        In class class_names /\ same_text (class ++ "Error") name = true.
Proof.
  intros Hrun.
  change error_class
    with (Seq (Alt (Lit "Eval")
              (Alt (Lit "Internal")
              (Alt (Lit "Range")
              (Alt (Lit "Reference")
              (Alt (Lit "Syntax")
              (Alt (Lit "Type")
              (Alt (Lit "URI") Empty))))))) (Lit "Error")) in Hrun.
  rewrite run_seq in Hrun.
  assert (Hclass :
            exists class,
              In class class_names
              /\ run true input (Lit class) i s caps
                     (fun i' s' caps' =>
                        run true input (Lit "Error") i' s' caps' k)
                 = Some res).
  { repeat (apply run_alt_cases in Hrun as [Hrun|Hrun];
            [eexists; split; [|exact Hrun]; unfold class_names; simpl; tauto|]).
    exists ""; split; [|exact Hrun]. unfold class_names; simpl; tauto. }
  destruct Hclass as [class [Hin Hlit]].
  apply run_lit_exact in Hlit as [m1 [s1 [Hs1 [Hm1 Herror]]]].
  apply run_lit_exact in Herror as [m2 [s2 [Hs2 [Hm2 Hk]]]].
  exists (m1 ++ m2)%string, s2. repeat split.
  - now rewrite Hs1, Hs2, append_assoc.
  - rewrite length_append. now rewrite Nat.add_assoc.
  - exists class. split; trivial. now apply same_text_append.
Qed.

(** What a match leaves in the groups: the second is the end of the
    message, and the first, when it took part, is the class name that
    stands just before [": "] and that end. *)
Lemma error_types_groups (text : string) (j : nat) (caps : captures) :
  run true text error_types 0 text [None; None] accept = Some (j, caps) ->
  j = String.length text
  /\ exists skipped rest,
      (skipped = ""
       \/ same_text "uncaught " skipped = true
       \/ same_text "uncaught exception: " skipped = true)
      /\ ((caps = [None; Some rest] /\ text = skipped ++ rest)
          \/ (exists name class,
                 In class class_names
                 /\ same_text (class ++ "Error") name = true
                 /\ caps = [Some name; Some rest]
                 /\ text = skipped ++ name ++ ": " ++ rest)).
Proof.
  intros Hrun. unfold error_types in Hrun. rewrite run_seq in Hrun.
  apply uncaught_prefix_cases in Hrun as [skipped [s1 [Htext [Hrun Hskipped]]]].
  cbv beta in Hrun. rewrite run_seq in Hrun.
  assert (Hat1 : starts_at text (0 + String.length skipped) s1)
    by now exists skipped.
  apply run_opt_cases in Hrun as [Hclass|Hnone].
  - rewrite run_seq, run_group in Hclass.
    apply error_class_cases in Hclass
      as [name [s2 [Hs1 [Hcolon [class [Hin Hname]]]]]].
    cbv beta in Hcolon.
    apply run_colon_space in Hcolon as [rest [Hs2 Htail]].
    cbv beta in Htail. cbn [set_group] in Htail. subst s1 s2.
    apply message_tail_groups in Htail.
    + destruct Htail as [Hj Hcaps]. split; [exact Hj|].
      exists skipped, rest. split; [exact Hskipped|]. right.
      exists name, class. repeat split; trivial.
      rewrite Hcaps. do 3 f_equal.
      replace (0 + String.length skipped + String.length name
               - (0 + String.length skipped)) with (String.length name)
        by lia.
      rewrite Htext. apply substring_middle.
    + apply starts_at_skip in Hat1.
      now apply starts_at_next, starts_at_next in Hat1.
  - cbv beta in Hnone. apply message_tail_groups in Hnone; [|exact Hat1].
    destruct Hnone as [Hj Hcaps]. split; [exact Hj|].
    exists skipped, s1. split; [exact Hskipped|]. left. now split.
Qed.

Lemma ERROR_TYPES_RE_run (text : string) :
  String_match text ERROR_TYPES_RE
  = match run true text error_types 0 text [None; None] accept with
    | Some (j, caps) => Some (Some (substring 0 (j - 0) text) :: caps)
    | None => None
    end.
Proof.
  unfold String_match. rewrite ERROR_TYPES_RE_exec.
  apply search_from_start.
Qed.

Section OnErrorMessages.

Context {env : Environment}.

(** X1. A message with a line terminator in it is not matched by the
    pattern: the type is ["Error"] and the value is the whole message, with
    any ["Uncaught "] prefix and class name left in it. *)
Theorem eventFromIncompleteOnError_multi_line
        (text : string) (url line column : any) :
  single_line text = false ->
  eventFromIncompleteOnError (str text) url line column
  = Returns (onerrorEvent (str "Error") (str text) url line column).
Proof.
  intros Htext. rewrite eventFromIncompleteOnError_str, ERROR_TYPES_RE_run.
  now rewrite (error_types_multi_line text Htext).
Qed.

(** X2. For a message of one line the value is the end of the message: what
    is dropped before it is nothing, ["uncaught "] or
    ["uncaught exception: "] in any letter case, and then, when the type is
    defined, the type followed by [": "]. The type is then one of the eight
    class names as the message spells it, in its own letter case; otherwise
    it is [undefined]. *)
Theorem eventFromIncompleteOnError_single_line
        (text : string) (url line column : any) :
  single_line text = true ->
  exists skipped rest name,
    eventFromIncompleteOnError (str text) url line column
    = Returns (onerrorEvent name (str rest) url line column)
    /\ (skipped = ""
        \/ same_text "uncaught " skipped = true
        \/ same_text "uncaught exception: " skipped = true)
    /\ ((name = undefined /\ text = skipped ++ rest)
        \/ (exists spelled class,
               name = str spelled
               /\ In class class_names
               /\ same_text (class ++ "Error") spelled = true
               /\ text = skipped ++ spelled ++ ": " ++ rest)).
Proof.
  intros Htext. pose proof (ERROR_TYPES_RE_single_line text Htext) as Hmatch.
  rewrite eventFromIncompleteOnError_str. rewrite ERROR_TYPES_RE_run in *.
  destruct (run true text error_types 0 text [None; None] accept)
    as [[j caps]|] eqn:Hrun; [|now elim Hmatch].
  apply error_types_groups in Hrun
    as [_ [skipped [rest [Hskipped [[-> Hrest]|Hclass]]]]].
  - exists skipped, rest, undefined. repeat split; auto.
  - destruct Hclass as [spelled [class [Hin [Hsame [-> Hrest]]]]].
    exists skipped, rest, (str spelled). repeat split; trivial.
    right. now exists spelled, class.
Qed.

End OnErrorMessages.

Lemma eventFromIncompleteOnError_multi_line_witness :
  eventFromIncompleteOnError (env := browser)
    (str ("Uncaught TypeError: x" ++ String (ascii_of_nat 10) "  at f"))
    (str "app.js") (number (Int 10)) (number (Int 5))
  = Returns
      (onerrorEvent (env := browser) (str "Error")
         (str ("Uncaught TypeError: x" ++ String (ascii_of_nat 10) "  at f"))
         (str "app.js") (number (Int 10)) (number (Int 5))).
Proof.
  apply eventFromIncompleteOnError_multi_line. reflexivity.
Defined.

Lemma eventFromIncompleteOnError_single_line_witness :
  exists skipped rest name,
    eventFromIncompleteOnError (env := browser)
      (str "uncaught exception: typeerror: x is not a function")
      (str "app.js") (number (Int 10)) (number (Int 5))
    = Returns
        (onerrorEvent (env := browser) name (str rest)
           (str "app.js") (number (Int 10)) (number (Int 5)))
    /\ (skipped = ""
        \/ same_text "uncaught " skipped = true
        \/ same_text "uncaught exception: " skipped = true)
    /\ ((name = undefined
         /\ "uncaught exception: typeerror: x is not a function"
            = skipped ++ rest)
        \/ (exists spelled class,
               name = str spelled
               /\ In class class_names
               /\ same_text (class ++ "Error") spelled = true
               /\ "uncaught exception: typeerror: x is not a function"
                  = skipped ++ spelled ++ ": " ++ rest)).
Proof.
  apply (eventFromIncompleteOnError_single_line (env := browser)).
  reflexivity.
Defined.

Example eventFromIncompleteOnError_lower_case :
  eventFromIncompleteOnError (env := browser)
    (str "uncaught exception: typeerror: x is not a function")
    (str "app.js") (number (Int 10)) (number (Int 5))
  = Returns
      (onerrorEvent (env := browser) (str "typeerror")
         (str "x is not a function")
         (str "app.js") (number (Int 10)) (number (Int 5))).
Proof. reflexivity. Qed.

(** *** The decisions of [shouldCaptureError] *)

Section Decisions.

Context {env : Environment}.

Lemma url_matches_dec (url : string) (subURLs : list SubURL) :
  holds (doesIncludeSubURLs url subURLs) = false
  <-> ~ exists entry, In entry subURLs /\ url_matches url entry.
Proof.
  rewrite <- doesIncludeSubURLs_true.
  destruct (holds (doesIncludeSubURLs url subURLs)); split; intros H;
    trivial; try discriminate. now elim H.
Qed.

(** X3. The only rejections: a url that matches a deny entry, or a custom
    filter that answers false when the allow list is empty or matched. In
    particular a match of the allow list does not accept by itself, and
    without a filter only the deny list rejects. *)
Theorem shouldCaptureError_rejects
        {E : Type} (event : E) (url : string) (allowUrls denyUrls : list SubURL)
        (customEventFilter : option (CustomEventFilterFunction E)) :
  shouldCaptureError event url allowUrls denyUrls customEventFilter = false
  <-> (exists entry, In entry denyUrls /\ url_matches url entry)
      \/ ((allowUrls = []
           \/ exists entry, In entry allowUrls /\ url_matches url entry)
          /\ exists filter,
              customEventFilter = Some filter /\ filter event url = false).
Proof.
  unfold shouldCaptureError.
  destruct (holds (doesIncludeSubURLs url denyUrls)) eqn:Hdeny.
  - assert (Hne : Nat.ltb 0 (length denyUrls) = true).
    { destruct denyUrls; [discriminate | reflexivity]. }
    rewrite Hne. simpl. split; trivial. intros _. left.
    now apply doesIncludeSubURLs_true.
  - rewrite andb_false_r. apply url_matches_dec in Hdeny.
    destruct (holds (doesIncludeSubURLs url allowUrls)) eqn:Hallow.
    + rewrite andb_false_r. apply doesIncludeSubURLs_true in Hallow.
      split.
      * destruct customEventFilter as [filter|]; [|discriminate].
        intros Hfilter. right. split; [now right | now exists filter].
      * intros [Hd|[_ [filter [-> Hfilter]]]]; [now elim Hdeny | exact Hfilter].
    + apply url_matches_dec in Hallow.
      destruct allowUrls as [|first others].
      * simpl. split.
        -- destruct customEventFilter as [filter|]; [|discriminate].
           intros Hfilter. right. split; [now left | now exists filter].
        -- intros [Hd|[_ [filter [-> Hfilter]]]];
             [now elim Hdeny | exact Hfilter].
      * simpl. split; [discriminate|].
        intros [Hd|[[Hnil|Hm] _]];
          [now elim Hdeny | discriminate | now elim Hallow].
Qed.

(** X4. The empty string is contained in every url: a deny list that holds
    it rejects every event, and an allow list that holds it never lets the
    permissive rule apply, so that the custom filter decides. *)
Theorem empty_entry_matches_every_url
        {E : Type} (event : E) (url : string) (allowUrls denyUrls : list SubURL)
        (filter : CustomEventFilterFunction E) :
  (In (Literal "") denyUrls ->
   shouldCaptureError event url allowUrls denyUrls (Some filter) = false)
  /\ (In (Literal "") allowUrls ->
      (forall entry, In entry denyUrls -> ~ url_matches url entry) ->
      shouldCaptureError event url allowUrls denyUrls (Some filter)
      = filter event url).
Proof.
  assert (Hempty : url_matches url (Literal "")) by now exists "", url.
  unfold shouldCaptureError. split.
  - intros Hin.
    assert (Hdeny : holds (doesIncludeSubURLs url denyUrls) = true).
    { apply doesIncludeSubURLs_true. now exists (Literal ""). }
    rewrite Hdeny. destruct denyUrls; [now elim Hin | reflexivity].
  - intros Hin Hnone.
    assert (Hdeny : holds (doesIncludeSubURLs url denyUrls) = false).
    { apply url_matches_dec. intros [entry [Hd Hm]]. exact (Hnone entry Hd Hm). }
    assert (Hallow : holds (doesIncludeSubURLs url allowUrls) = true).
    { apply doesIncludeSubURLs_true. now exists (Literal ""). }
    now rewrite Hdeny, Hallow, !andb_false_r.
Qed.

End Decisions.

Lemma empty_entry_matches_every_url_witness :
  shouldCaptureError tt "https://shop.example/app.js"
    [Literal "shop.example"] [Literal "cdn."; Literal ""]
    (Some (fun _ _ => true)) = false.
Proof.
  apply (proj1 (empty_entry_matches_every_url tt "https://shop.example/app.js"
                  [Literal "shop.example"] [Literal "cdn."; Literal ""]
                  (fun _ _ => true))).
  right; left; reflexivity.
Defined.

(** *** The url of an event *)

Lemma lastValid_skips (skipped rest : list StackFrame) :
  forallb unattributable skipped = true ->
  lastValid (skipped ++ rest)%list = lastValid rest.
Proof.
  induction skipped as [|frame skipped IH]; [reflexivity|].
  cbn [forallb app lastValid]. intros H.
  apply andb_true_iff in H as [Hframe Hskipped].
  unfold unattributable in Hframe. unfold differs.
  destruct (filename frame) as [name|]; [|discriminate].
  apply orb_true_iff in Hframe as [->| ->]; simpl; auto.
  rewrite andb_false_r. auto.
Qed.

Lemma lastValid_stops (frame : StackFrame) (rest : list StackFrame) :
  unattributable frame = false ->
  lastValid (frame :: rest)
  = match filename frame with
    | Some name => if String.eqb name "" then None else Some name
    | None => None
    end.
Proof.
  cbn [lastValid]. unfold unattributable, differs.
  destruct (filename frame) as [name|]; [|reflexivity].
  intros H. apply orb_false_iff in H as [-> ->]. reflexivity.
Qed.

Lemma forallb_rev {A : Type} (f : A -> bool) (l : list A) :
  forallb f (rev l) = forallb f l.
Proof.
  induction l as [|x l IH]; [reflexivity|].
  simpl. rewrite forallb_app, IH. simpl. rewrite andb_true_r.
  apply andb_comm.
Qed.

(** X5. The url is decided by the last frame that is neither anonymous nor
    native code, whatever comes before it: its file name when it has one
    that is not empty, and no url otherwise. The frames before it are not
    looked at, even when that frame has no file name. *)
Theorem getLastValidUrl_last_frame
        (before after_ : list StackFrame) (frame : StackFrame) :
  unattributable frame = false ->
  forallb unattributable after_ = true ->
  getLastValidUrl (Some (before ++ frame :: after_)%list)
  = match filename frame with
    | Some name => if String.eqb name "" then None else Some name
    | None => None
    end.
Proof.
  intros Hframe Hafter. unfold getLastValidUrl.
  rewrite rev_app_distr. cbn [rev]. rewrite <- app_assoc. cbn [app].
  rewrite lastValid_skips by now rewrite forallb_rev.
  now apply lastValid_stops.
Qed.

Lemma lastValid_sound (frames : list StackFrame) (url : string) :
  lastValid frames = Some url ->
  exists skipped frame rest,
    frames = (skipped ++ frame :: rest)%list
    /\ forallb unattributable skipped = true
    /\ unattributable frame = false
    /\ filename frame = Some url
    /\ url <> "".
Proof.
  induction frames as [|frame frames IH]; [discriminate|].
  destruct (unattributable frame) eqn:Hframe.
  - change (frame :: frames) with ([frame] ++ frames)%list.
    rewrite lastValid_skips by (simpl; now rewrite Hframe).
    intros H. apply IH in H as [skipped [f [rest [-> [Hs [Hf [Hname Hurl]]]]]]].
    exists (frame :: skipped), f, rest. repeat split; trivial.
    simpl. now rewrite Hframe.
  - rewrite lastValid_stops by exact Hframe.
    destruct (filename frame) as [name|] eqn:Hname; [|discriminate].
    destruct (String.eqb_spec name ""); [discriminate|].
    intros [= <-]. exists [], frame, frames. repeat split; trivial.
Qed.

(** X6. A url that [getLastValidUrl] returns is the file name of one of the
    frames, is not empty and is neither marker, and every frame after that
    one is anonymous or native code. Without frames, or with such frames
    only, there is no url. *)
Theorem getLastValidUrl_sound (frames : option (list StackFrame)) :
  (forall url,
      getLastValidUrl frames = Some url ->
      url <> "" /\ url <> "<anonymous>" /\ url <> "[native code]"
      /\ exists before frame after_,
          frames = Some (before ++ frame :: after_)%list
          /\ filename frame = Some url
          /\ forallb unattributable after_ = true)
  /\ (forallb unattributable
              (match frames with Some f => f | None => [] end) = true ->
      getLastValidUrl frames = None).
Proof.
  unfold getLastValidUrl. split.
  - intros url H.
    apply lastValid_sound in H
      as [skipped [frame [rest [Hrev [Hs [Hf [Hname Hurl]]]]]]].
    split; [exact Hurl|].
    unfold unattributable in Hf. rewrite Hname in Hf.
    apply orb_false_iff in Hf as [Ha Hn].
    split; [now apply String.eqb_neq|]. split; [now apply String.eqb_neq|].
    exists (rev rest), frame, (rev skipped).
    destruct frames as [l|]; [|now destruct skipped].
    repeat split; trivial.
    + f_equal. rewrite <- (rev_involutive l), Hrev.
      rewrite rev_app_distr. cbn [rev]. now rewrite <- app_assoc.
    + now rewrite forallb_rev.
  - intros Hall. rewrite <- (app_nil_r (rev _)).
    rewrite lastValid_skips; [reflexivity | now rewrite forallb_rev].
Qed.

Lemma getLastValidUrl_last_frame_witness :
  getLastValidUrl
    (Some ([{| filename := Some "https://shop.example/app.js";
               function := Some "main"; lineno := number (Int 3);
               colno := number (Int 1); in_app := Some true |}]
           ++ {| filename := None; function := Some "eval";
                 lineno := undefined; colno := undefined;
                 in_app := Some true |}
           :: [{| filename := Some "[native code]"; function := Some "forEach";
                  lineno := undefined; colno := undefined;
                  in_app := Some false |}])%list)
  = None.
Proof.
  apply (getLastValidUrl_last_frame
           [{| filename := Some "https://shop.example/app.js";
               function := Some "main"; lineno := number (Int 3);
               colno := number (Int 1); in_app := Some true |}]
           [{| filename := Some "[native code]"; function := Some "forEach";
               lineno := undefined; colno := undefined;
               in_app := Some false |}]
           {| filename := None; function := Some "eval";
              lineno := undefined; colno := undefined;
              in_app := Some true |});
    reflexivity.
Defined.

Section EventUrl.

Context {env : Environment}.

Lemma getEventFilterUrl_frames (event : Event) :
  getEventFilterUrl event = lastValid (rev (eventFrames event)).
Proof.
  unfold getEventFilterUrl, getLastValidUrl, eventFrames, first_exception.
  destruct event as [[[[[|[t v [[[[|f fs]|]]|] m] rest]|]]|] msg ex tg lv];
    reflexivity.
Qed.

(** X7. After [enhanceEventWithInitialFrame] an event that had no frame is
    attributed to the url given, or to the document location when the url is
    not a non-empty string, unless that name is a marker or empty; an event
    that had frames keeps the url it had. *)
Theorem getEventFilterUrl_enhance (event : Event) (url line column : any) :
  getEventFilterUrl (enhanceEventWithInitialFrame event url line column)
  = match eventFrames event with
    | [] =>
        let name :=
          match url with
          | str u => if String.eqb u "" then getLocationHref else u
          | _ => getLocationHref
          end in
        if String.eqb name "<anonymous>" || String.eqb name "[native code]"
           || String.eqb name ""
        then None else Some name
    | _ => getEventFilterUrl event
    end.
Proof.
  rewrite !getEventFilterUrl_frames, eventFrames_enhance.
  destruct (eventFrames event) as [|frame frames]; [|reflexivity].
  cbn [rev app lastValid initialFrame filename differs].
  destruct (String.eqb _ "<anonymous>"); [reflexivity|].
  destruct (String.eqb _ "[native code]"); reflexivity.
Qed.

(** X8. [enhanceEventWithInitialFrame] touches the frame list only: the
    message, extra, tags and level of the event, the exceptions after the
    first, and the type, value and mechanism of the first are as they were.
    The event it returns always has a first exception with a frame. *)
Theorem enhanceEventWithInitialFrame_keeps
        (event : Event) (url line column : any) :
  let enhanced := enhanceEventWithInitialFrame event url line column in
  message enhanced = message event
  /\ extra enhanced = extra event
  /\ tags enhanced = tags event
  /\ level enhanced = level event
  /\ tl (exceptions enhanced) = tl (exceptions event)
  /\ type (first_exception enhanced) = type (first_exception event)
  /\ value (first_exception enhanced) = value (first_exception event)
  /\ mechanism (first_exception enhanced) = mechanism (first_exception event)
  /\ exceptions enhanced <> []
  /\ eventFrames enhanced <> [].
Proof.
  intros enhanced. repeat split;
    try (unfold enhanced, enhanceEventWithInitialFrame, exceptions,
           first_exception;
         destruct event as [[[[[|[t v st m] rest]|]]|] msg ex tg lv];
         simpl; (reflexivity || discriminate)).
  unfold enhanced. rewrite eventFrames_enhance.
  destruct (eventFrames event); discriminate.
Qed.

End EventUrl.

(** *** More on exceptions from errors *)

Section MoreFromError.

Context {env : Environment}.

Lemma parseStackFrames_returns (stackParser : StackParser) (ex : any) :
  nullish ex = false ->
  exists frames, parseStackFrames stackParser ex = Returns frames.
Proof.
  intros Hex. unfold parseStackFrames.
  destruct (rawStack_returns ex Hex) as [raw ->].
  destruct (getPopSize_returns ex) as [pop ->]. simpl. eauto.
Qed.

Lemma exceptionFromError_returns (stackParser : StackParser) (ex : any) :
  nullish ex = false ->
  exists exception, exceptionFromError stackParser ex = Returns exception.
Proof.
  intros Hex.
  destruct (rawStack_returns ex Hex) as [raw Hraw].
  destruct (getPopSize_returns ex) as [pop Hpop].
  destruct (and_get_returns ex "name") as [name Hname].
  destruct (extractMessage_returns ex) as [message Hmessage].
  eexists.
  exact (exceptionFromError_eq stackParser ex raw name message pop
           Hraw Hpop Hname Hmessage).
Qed.

(** X9. [parseStackFrames] and [exceptionFromError] throw a TypeError on
    [undefined] and [null], before the parser is called: whatever the
    parser would do. On another value they return, whatever the parser
    does, when the test of [reactMinifiedRegexp] runs no code of the
    message: when [framesToPop] is a number, so that the test is not
    reached, or when the message is a primitive. *)
Theorem parseStackFrames_throws_on_nullish
        (stackParser : StackParser) (ex : any) :
  (nullish ex = true ->
   parseStackFrames stackParser ex = Throws "TypeError"
   /\ exceptionFromError stackParser ex = Throws "TypeError")
  /\ (nullish ex = false ->
      (exists n, get ex "framesToPop" = Returns (number n))
      \/ (exists message,
             get ex "message" = Returns message
             /\ isPrimitive message = true) ->
      (exists frames, parseStackFrames stackParser ex = Returns frames)
      /\ exists exception,
          exceptionFromError stackParser ex = Returns exception).
Proof.
  split.
  - destruct ex; try discriminate; intros _; split; reflexivity.
  - intros Hex _. split.
    + now apply parseStackFrames_returns.
    + now apply exceptionFromError_returns.
Qed.

(** X10. What the stack parser is called with. The stack is the
    [stacktrace] property when that is truthy, else the [stack] property
    when that is truthy, else the empty string: never a falsy value other
    than the empty string. The number of frames to pop is the [framesToPop]
    property when that is a number, whatever number; otherwise it is 1 when
    the error is truthy and [reactMinifiedRegexp] matches its message, and
    0 in every other case. *)
Theorem stack_parser_arguments
        (stackParser : StackParser) (ex raw : any) (pop : num) :
  rawStack ex = Returns raw ->
  getPopSize ex = Returns pop ->
  parseStackFrames stackParser ex
  = Returns (try_catch (stackParser raw pop) [])
  /\ (truthy raw = true \/ raw = str "")
  /\ (forall stacktrace stack,
         get ex "stacktrace" = Returns stacktrace ->
         get ex "stack" = Returns stack ->
         raw = if truthy stacktrace then stacktrace
               else if truthy stack then stack else str "")
  /\ (forall n, get ex "framesToPop" = Returns (number n) -> pop = n)
  /\ (forall framesToPop message,
         get ex "framesToPop" = Returns framesToPop ->
         typeof framesToPop <> t_number ->
         get ex "message" = Returns message ->
         pop = if truthy ex
                  && Regex.test reactMinifiedRegexp (ToString message)
               then Int 1 else Int 0).
Proof.
  intros Hraw Hpop. split; [|split; [|split; [|split]]].
  - unfold parseStackFrames. now rewrite Hraw, Hpop.
  - unfold rawStack in Hraw.
    destruct (get ex "stacktrace") as [stacktrace|]; [|discriminate].
    cbn [bind] in Hraw. destruct (truthy stacktrace) eqn:Ht.
    + injection Hraw as <-. now left.
    + destruct (get ex "stack") as [stack|]; [|discriminate].
      cbn [bind] in Hraw. injection Hraw as <-. unfold or_.
      destruct (truthy stack) eqn:Hs; auto.
  - intros stacktrace stack Hst Hsk. unfold rawStack in Hraw.
    rewrite Hst in Hraw. cbn [bind] in Hraw.
    destruct (truthy stacktrace); [now injection Hraw|].
    rewrite Hsk in Hraw. cbn [bind] in Hraw. now injection Hraw.
  - intros n Hn. unfold getPopSize in Hpop.
    assert (Hex : truthy ex = true)
      by (destruct ex; try discriminate; reflexivity).
    rewrite Hex, Hn in Hpop. cbn [bind] in Hpop. now injection Hpop.
  - intros framesToPop message Hf Htype Hm. unfold getPopSize in Hpop.
    destruct (truthy ex); [|now injection Hpop].
    rewrite Hf in Hpop. cbn [bind andb] in Hpop.
    destruct framesToPop as [| | |n| | |];
      try (rewrite Hm in Hpop; cbn [bind] in Hpop;
           destruct (Regex.test reactMinifiedRegexp (ToString message));
           now injection Hpop).
    now elim Htype.
Qed.

(** X11. The name and the message of an error come back as the type and the
    value of the exception: for an object whose [name] is a string and whose
    [message] is a non-empty string, with the frames of the parser as the
    stack trace when there are some. *)
Theorem exceptionFromError_of_an_error
        (stackParser : StackParser) (props : list (string * any))
        (name text : string) :
  lookup "name" props = Some (str name) ->
  lookup "message" props = Some (str text) ->
  text <> "" ->
  exists raw pop,
    rawStack (object props) = Returns raw
    /\ getPopSize (object props) = Returns pop
    /\ exceptionFromError stackParser (object props)
       = Returns
           {| type := str name; value := str text;
              stacktrace :=
                match try_catch (stackParser raw pop) [] with
                | [] => None
                | frames => Some {| frames := Some frames |}
                end;
              mechanism := None |}.
Proof.
  intros Hname Htext Hne.
  destruct (rawStack_returns (object props) eq_refl) as [raw Hraw].
  destruct (getPopSize_returns (object props)) as [pop Hpop].
  exists raw, pop. split; [exact Hraw|]. split; [exact Hpop|].
  rewrite (exceptionFromError_eq stackParser (object props) raw (str name)
             (str text) pop Hraw Hpop).
  - cbv zeta. cbn [is_undefined andb].
    now destruct (try_catch (stackParser raw pop) []).
  - unfold and_get. simpl. now rewrite Hname.
  - unfold extractMessage, and_get. simpl. rewrite Htext. simpl.
    now destruct (String.eqb_spec text "").
Qed.

(** X12. [extractMessage] always returns, and never [undefined] or another
    falsy value but the empty string; the empty string is returned only as
    the [message] of the error that the message wraps. That wrapped message,
    when it is a string, is what is returned. *)
Theorem extractMessage_falsy (ex : any) :
  exists result,
    extractMessage ex = Returns result
    /\ (truthy result = false ->
        result = str ""
        /\ exists message error,
            and_get ex "message" = Returns message
            /\ get message "error" = Returns error
            /\ truthy error = true
            /\ get error "message" = Returns (str ""))
    /\ (forall message error inner,
           and_get ex "message" = Returns message ->
           truthy message = true ->
           get message "error" = Returns error ->
           truthy error = true ->
           get error "message" = Returns (str inner) ->
           result = str inner).
Proof.
  unfold extractMessage.
  destruct (and_get_returns ex "message") as [message Hmessage].
  rewrite Hmessage. cbn [bind].
  destruct (truthy message) eqn:Hm; cbn [negb].
  - destruct (get_returns message "error" (truthy_not_nullish _ Hm))
      as [error Herror]. rewrite Herror. cbn [bind].
    destruct (truthy error) eqn:He.
    + destruct (get_returns error "message" (truthy_not_nullish _ He))
        as [inner Hinner]. rewrite Hinner. cbn [bind].
      destruct inner as [| | | |s| |]; cbn [typeof];
        try (exists message; split; [reflexivity|]; split;
             [congruence | intros m e i [= <-] _ He1 _ Hi;
                           rewrite Herror in He1; injection He1 as <-;
                           rewrite Hinner in Hi; discriminate]).
      exists (str s). split; [reflexivity|]. split.
      * intros Hs. simpl in Hs. apply negb_false_iff in Hs.
        apply String.eqb_eq in Hs. subst s. split; trivial.
        now exists message, error.
      * intros m e i [= <-] _ He1 _ Hi.
        rewrite Herror in He1; injection He1 as <-.
        rewrite Hinner in Hi. now injection Hi as ->.
    + exists message. split; [reflexivity|]. split; [congruence|].
      intros m e i [= <-] _ He1 He2. rewrite Herror in He1.
      injection He1 as <-. congruence.
  - exists (str "No error message"). split; [reflexivity|]. split.
    + discriminate.
    + intros m e i [= <-] Hm'. congruence.
Qed.

End MoreFromError.

(** *** Events from other inputs *)

Lemma tag_assign (tags : list (string * string)) (key v : string) :
  tag key (assign tags key v) = Some v.
Proof.
  induction tags as [|[k x] tags IH]; simpl.
  - now rewrite String.eqb_refl.
  - destruct (String.eqb k key) eqn:Hk; simpl; now rewrite Hk.
Qed.

Section OtherInputs.

Context {env : Environment}.

Lemma eventFromString_returns
      (stackParser : StackParser) (input syntheticException : any)
      (attachStacktrace : option bool) :
  exists event,
    eventFromString stackParser input syntheticException attachStacktrace
    = Returns event.
Proof.
  unfold eventFromString.
  destruct (flag attachStacktrace && truthy syntheticException) eqn:H; eauto.
  apply andb_true_iff in H as [_ Hsynthetic].
  destruct (parseStackFrames_returns stackParser syntheticException
              (truthy_not_nullish _ Hsynthetic)) as [parsed ->].
  cbn [bind]. destruct (negb (Nat.eqb (length parsed) 0)); eauto.
Qed.

(** X13. [eventFromString] always returns an event whose message is the
    input, without extra, tags or level. It carries an exception only when
    the stack trace is asked for, a synthetic exception is given and its
    stack parses to at least one frame; the exception then has the input as
    its value, those frames, and no type. *)
Theorem eventFromString_event
        (stackParser : StackParser) (input syntheticException : any)
        (attachStacktrace : option bool) :
  exists event,
    eventFromString stackParser input syntheticException attachStacktrace
    = Returns event
    /\ message event = input
    /\ extra event = None /\ tags event = None /\ level event = None
    /\ (exception event = None
        \/ exists parsed,
            parsed <> []
            /\ flag attachStacktrace = true
            /\ truthy syntheticException = true
            /\ parseStackFrames stackParser syntheticException
               = Returns parsed
            /\ exceptions event
               = [{| type := undefined; value := input;
                     stacktrace := Some {| frames := Some parsed |};
                     mechanism := None |}]).
Proof.
  unfold eventFromString.
  destruct (flag attachStacktrace) eqn:Hflag; cbn [andb];
    [|eexists; repeat split; auto].
  destruct (truthy syntheticException) eqn:Hsynthetic;
    [|eexists; repeat split; auto].
  destruct (parseStackFrames_returns stackParser syntheticException
              (truthy_not_nullish _ Hsynthetic)) as [parsed Hparsed].
  rewrite Hparsed. cbn [bind].
  destruct parsed as [|frame parsed]; cbn [length Nat.eqb negb];
    eexists; repeat split; auto.
  right. exists (frame :: parsed). repeat split; trivial. discriminate.
Qed.

(** X14. A DOM error or exception that has a [code] is tagged with it: the
    event returned carries the tag ["DOMException.code"] with the code as a
    string, whether the event came from the stack of the object or from its
    name and message. *)
Theorem eventFromUnknownInput_DOM_code
        (hub : option Hub) (stackParser : StackParser)
        (props : list (string * any)) (code syntheticException : any)
        (attachStacktrace isUnhandledRejection : option bool) :
  isErrorEvent (object props) = false ->
  isDOMError (object props) || isDOMException (object props) = true ->
  lookup "code" props = Some code ->
  exists event,
    eventFromUnknownInput hub stackParser (object props) syntheticException
                          attachStacktrace isUnhandledRejection
    = Returns event
    /\ exists tags_,
        tags event = Some tags_
        /\ tag "DOMException.code" tags_ = Some (ToString code).
Proof.
  intros Hevent Hdom Hcode. unfold eventFromUnknownInput.
  rewrite Hevent, Hdom. cbn [bind truthy has get]. rewrite Hcode.
  destruct (lookup "stack" props) as [stack|].
  - unfold eventFromError.
    destruct (exceptionFromError_returns stackParser (object props) eq_refl)
      as [exception ->].
    cbn [bind]. eexists. split; [reflexivity|].
    eexists. split; [reflexivity | apply tag_assign].
  - match goal with
    | |- context [eventFromString ?p ?i ?s ?a] =>
        destruct (eventFromString_returns p i s a) as [event ->]
    end.
    cbn [bind]. eexists. split; [reflexivity|].
    eexists. split; [reflexivity | apply tag_assign].
Qed.

End OtherInputs.

(** *** More on the handlers *)

Section MoreHandlers.

Context {env : Environment}.

(** X15. [captureExecption] on a primitive: [isNetworkError] applies [in]
    to it and throws a TypeError, so with a bound hub and without the force
    flag nothing is forwarded and the call throws; with the force flag the
    primitive is forwarded, and without a hub the call does nothing. *)
Theorem captureExecption_of_a_primitive
        (self : MFESentry) (error hint : any) (force : option bool) :
  isPrimitive error = true ->
  instanceofAxiosError error = false ->
  captureExecption self error hint force
  = match hub self with
    | Some _ =>
        if flag force then ([captureException error hint], Returns tt)
        else ([], Throws "TypeError")
    | None => ([], Returns tt)
    end.
Proof.
  intros Hprimitive Haxios. unfold captureExecption, isNetworkError.
  rewrite Haxios. destruct error; try discriminate; reflexivity.
Qed.

(** X16. An error event whose file matches an entry of the deny list of the
    client is not forwarded by [handleOnError], whatever error and message
    it carries, and the handler returns. *)
Theorem handleOnError_denied_url
        (self : MFESentry) (data : ErrorEvent) (bound_client : BrowserClient)
        (deny : list SubURL) :
  client self = Some bound_client ->
  denyUrls (getOptions bound_client) = Some deny ->
  (exists entry, In entry deny /\ url_matches (data_filename data) entry) ->
  handleOnError self data = ([], Returns tt).
Proof.
  intros Hclient Hdeny Hmatch. unfold handleOnError, getHubOptions.
  rewrite Hclient, Hdeny. unfold shouldCaptureError.
  apply doesIncludeSubURLs_true in Hmatch. rewrite Hmatch.
  destruct deny; [discriminate Hmatch | reflexivity].
Qed.

(** [handleOnError] consults neither the custom filter nor the entry
    file: with any other values of these two fields it does the same. *)
Theorem handleOnError_ignores_custom_filter
        (self : MFESentry) (data : ErrorEvent) (file : option string)
        (filter : option (CustomEventFilterFunction Event)) :
  handleOnError (with_filters self file filter) data = handleOnError self data.
Proof. reflexivity. Qed.

(** [handleUnhandledRejection] consults neither the allow list nor the
    deny list of the client: with any other lists it does the same. *)
Theorem handleUnhandledRejection_ignores_url_lists
        (bound_hub : option Hub) (options : ClientOptions)
        (file : option string)
        (filter : option (CustomEventFilterFunction Event))
        (allow deny : option (list SubURL)) (e : any) :
  handleUnhandledRejection
    {| hub := bound_hub;
       client := Some {| getOptions := with_url_lists options allow deny |};
       appJSFile := file; customEventFilter := filter |} e
  = handleUnhandledRejection
      {| hub := bound_hub; client := Some {| getOptions := options |};
         appJSFile := file; customEventFilter := filter |} e.
Proof. reflexivity. Qed.

(** X17. An error that carries a truthy [__sentry_own_request__] is not
    reported by either handler: [handleUnhandledRejection] answers [true]
    and [handleOnError] returns, and no call is made. *)
Theorem own_request_not_reported
        (self : MFESentry) (error marker : any) :
  get error "__sentry_own_request__" = Returns marker ->
  truthy error = true ->
  truthy marker = true ->
  (forall e, rejectionReason e = error ->
             handleUnhandledRejection self e = ([], Returns (boolean true)))
  /\ (forall data, data_error data = error ->
                   handleOnError self data = ([], Returns tt)).
Proof.
  intros Hmarker Herror Htruthy. split.
  - intros e He. unfold handleUnhandledRejection, and_get.
    rewrite He, Herror, Hmarker. cbn [after]. now rewrite Htruthy.
  - intros data Hdata. unfold handleOnError.
    destruct (getHubOptions self) as [[[parser attach] allow] deny].
    rewrite Hdata.
    destruct (shouldCaptureError error (data_filename data) allow deny None);
      [|reflexivity].
    cbn [negb]. unfold and_get. rewrite Herror, Hmarker. cbn [after].
    now rewrite Htruthy.
Qed.

End MoreHandlers.

Section Forwarded.

Context {env : Environment}.

(** X18. Whatever [handleUnhandledRejection] forwards has passed its gates.
    When it makes a call, the event built from the rejection has a url, the
    url contains the entry file if one is set, the custom filter if one is
    set has accepted the event, the hub is bound or else only propagation is
    stopped, and the calls are at most [stopImmediatePropagation] followed
    by one [captureEvent] of the event at level ["error"], stamped as
    unhandled, with the reason as the original exception. *)
Theorem handleUnhandledRejection_calls
        (self : MFESentry) (e : any) (calls : list Effect) (result : outcome any) :
  handleUnhandledRejection self e = (calls, result) ->
  calls = []
  \/ exists event url stopped,
      rejectionEvent self (rejectionReason e) = Returns event
      /\ getEventFilterUrl (set_level event "error") = Some url
      /\ (forall file, appJSFile self = Some file ->
                       file = "" \/ includes url file = true)
      /\ (forall filter, customEventFilter self = Some filter ->
                         filter (set_level event "error") url = true)
      /\ (stopped = [] \/ stopped = [stopImmediatePropagation])
      /\ calls
         = (stopped
              ++ match hub self with
                 | Some _ =>
                     [captureEvent
                        (addExceptionMechanism (set_level event "error")
                           (unhandled "onunhandledrejection"))
                        (hint_of (rejectionReason e))]
                 | None => []
                 end)%list.
Proof.
  unfold handleUnhandledRejection. cbv zeta.
  destruct (and_get (rejectionReason e) "__sentry_own_request__")
    as [marker|]; cbn [after]; [|intros [= <- _]; now left].
  destruct (truthy marker); [intros [= <- _]; now left|].
  destruct (rejectionEvent self (rejectionReason e)) as [event|] eqn:Hevent;
    cbn [after]; [|intros [= <- _]; now left].
  destruct (getEventFilterUrl (set_level event "error")) as [url|] eqn:Hurl;
    [|intros [= <- _]; now left].
  destruct (match appJSFile self with
            | Some file => negb (String.eqb file "") && negb (includes url file)
            | None => false
            end) eqn:Hfile; [intros [= <- _]; now left|].
  destruct (match customEventFilter self with
            | Some filter => negb (filter (set_level event "error") url)
            | None => false
            end) eqn:Hfilter; [intros [= <- _]; now left|].
  destruct (get e "stopImmediatePropagation") as [stop|]; cbn [after];
    [|intros [= <- _]; now left].
  unfold addMechanismAndCapture.
  assert (Hgates :
            (forall file, appJSFile self = Some file ->
                          file = "" \/ includes url file = true)
            /\ (forall filter, customEventFilter self = Some filter ->
                               filter (set_level event "error") url = true)).
  { split.
    - intros file Hf. rewrite Hf in Hfile.
      apply andb_false_iff in Hfile as [H|H]; apply negb_false_iff in H.
      + left. now apply String.eqb_eq.
      + now right.
    - intros filter Hf. rewrite Hf in Hfilter.
      now apply negb_false_iff in Hfilter. }
  destruct Hgates as [Hgate1 Hgate2].
  destruct (hub self); intros [= <- _]; right;
    exists event, url,
      (match typeof stop with
       | t_function => [stopImmediatePropagation]
       | _ => []
       end);
    (repeat split; trivial; destruct (typeof stop); auto).
Qed.

End Forwarded.

Section ForwardedOnError.

Context {env : Environment}.

Lemma eventFromIncompleteOnError_has_frame
      (msg url line column : any) (event : Event) :
  eventFromIncompleteOnError msg url line column = Returns event ->
  eventFrames event <> [].
Proof.
  unfold eventFromIncompleteOnError.
  destruct (if isErrorEvent msg then get msg "message" else Returns msg)
    as [message|]; [|discriminate].
  cbn [bind]. destruct message; try discriminate.
  destruct (String_match _ ERROR_TYPES_RE); intros [= <-];
    rewrite eventFrames_enhance;
    match goal with |- context [eventFrames ?e] => destruct (eventFrames e) end;
    discriminate.
Qed.

(** X19. Whatever [handleOnError] forwards has passed the url lists, and
    has a frame. When it makes a call, [shouldCaptureError] has accepted the
    file of the error event against the lists of the client, the hub is
    bound, and the call is the one [captureEvent] of an event at level
    ["error"], stamped as unhandled by [onerror], with the error as the
    original exception; that event has at least one stack frame. *)
Theorem handleOnError_calls
        (self : MFESentry) (data : ErrorEvent) (calls : list Effect)
        (result : outcome unit) :
  handleOnError self data = (calls, result) ->
  calls = []
  \/ exists event,
      shouldCaptureError (data_error data) (data_filename data)
        (snd (fst (getHubOptions self))) (snd (getHubOptions self)) None
      = true
      /\ hub self <> None
      /\ eventFrames event <> []
      /\ calls
         = [captureEvent
              (addExceptionMechanism (set_level event "error")
                 (unhandled "onerror"))
              (hint_of (data_error data))]
      /\ result = Returns tt.
Proof.
  unfold handleOnError.
  destruct (getHubOptions self) as [[[parser attach] allow] deny].
  cbn [fst snd].
  destruct (shouldCaptureError (data_error data) (data_filename data)
              allow deny None) eqn:Hcapture; cbn [negb];
    [|intros [= <- _]; now left].
  destruct (and_get (data_error data) "__sentry_own_request__")
    as [marker|]; cbn [after]; [|intros [= <- _]; now left].
  destruct (truthy marker); [intros [= <- _]; now left|].
  match goal with
  | |- after ?m _ = _ -> _ => destruct m as [event|] eqn:Hevent
  end; cbn [after]; [|intros [= <- _]; now left].
  unfold addMechanismAndCapture.
  destruct (hub self); [|intros [= <- _]; now left].
  intros [= <- <-]. right. exists event. repeat split; trivial; try discriminate.
  destruct (is_undefined (data_error data) && isString (data_message data)).
  - now apply eventFromIncompleteOnError_has_frame in Hevent.
  - match type of Hevent with
    | bind ?m _ = _ => destruct m as [built|]; [|discriminate]
    end.
    cbn [bind] in Hevent. injection Hevent as <-.
    rewrite eventFrames_enhance. destruct (eventFrames built); discriminate.
Qed.

(** X20. Before a client is created [handleOnError] does not return: with
    no hub and no client every error event that is not an own request makes
    it throw, and nothing is forwarded. *)
Theorem handleOnError_without_hub
        (self : MFESentry) (data : ErrorEvent) (marker : any) :
  hub self = None ->
  client self = None ->
  and_get (data_error data) "__sentry_own_request__" = Returns marker ->
  truthy marker = false ->
  exists error, handleOnError self data = ([], Throws error).
Proof.
  intros Hhub Hclient Hmarker Hfalsy.
  unfold handleOnError, getHubOptions. rewrite Hclient. cbn.
  rewrite Hmarker. cbn [after]. rewrite Hfalsy.
  match goal with
  | |- exists _, after ?m _ = _ => destruct m as [event|error]
  end; cbn [after].
  - unfold addMechanismAndCapture. rewrite Hhub. eauto.
  - eauto.
Qed.

(** X21. [createClient] binds the hub and the client and stores the entry
    file and the filter, and [getHubOptions] then reads the parser, the
    stack trace flag and the url lists of the options given, a missing list
    being empty. Without a client the options are a parser that returns no
    frame, no stack trace and empty lists. *)
Theorem createClient_getHubOptions
        (self : MFESentry) (options : ClientOptions) (file : option string)
        (filter : option (CustomEventFilterFunction Event)) :
  let created := fst (createClient self options file filter) in
  getHubOptions created
  = (stackParser options, attachStacktrace options,
     match allowUrls options with Some l => l | None => [] end,
     match denyUrls options with Some l => l | None => [] end)
  /\ hub created = Some {| getClient := Some {| getOptions := options |} |}
  /\ client created = Some {| getOptions := options |}
  /\ appJSFile created = file
  /\ customEventFilter created = filter
  /\ (client self = None ->
      exists parser,
        getHubOptions self = (parser, Some false, [], [])
        /\ forall stack pop, parser stack pop = Returns []).
Proof.
  repeat split. intros Hclient. unfold getHubOptions. rewrite Hclient.
  eexists. split; reflexivity.
Qed.

End ForwardedOnError.

Section LegacyForward.

Context {env : Environment}.

(** X22. An error event without an error object whose message is a string
    is always forwarded, once, when the hub is bound and the url lists
    accept its file: as the event of [eventFromIncompleteOnError] at level
    ["error"], stamped as unhandled by [onerror], with [undefined] as the
    original exception. *)
Theorem handleOnError_string_message
        (self : MFESentry) (data : ErrorEvent) (text : string)
        (bound_hub : Hub) :
  hub self = Some bound_hub ->
  data_error data = undefined ->
  data_message data = str text ->
  shouldCaptureError undefined (data_filename data)
    (snd (fst (getHubOptions self))) (snd (getHubOptions self)) None = true ->
  exists event,
    eventFromIncompleteOnError (str text) (str (data_filename data))
                               (data_lineno data) (data_colno data)
    = Returns event
    /\ handleOnError self data
       = ([captureEvent
             (addExceptionMechanism (set_level event "error")
                (unhandled "onerror"))
             (hint_of undefined)],
          Returns tt).
Proof.
  intros Hhub Herror Hmessage Hcapture.
  rewrite (handleOnError_incomplete self data text Herror Hmessage).
  destruct (getHubOptions self) as [[[parser attach] allow] deny].
  cbn [fst snd] in Hcapture. rewrite Hcapture.
  rewrite eventFromIncompleteOnError_str. eexists. split; [reflexivity|].
  cbn [after]. unfold addMechanismAndCapture. now rewrite Hhub.
Qed.

End LegacyForward.

(** *** The further properties at work *)

Lemma parseStackFrames_throws_on_nullish_witness :
  (exists frames,
      parseStackFrames (env := browser) failingParser typeError
      = Returns frames)
  /\ exists exception,
      exceptionFromError (env := browser) failingParser typeError
      = Returns exception.
Proof.
  apply (proj2 (parseStackFrames_throws_on_nullish
                  (env := browser) failingParser typeError)).
  - reflexivity.
  - right. exists (str "x is not a function"). split; reflexivity.
Defined.

Lemma stack_parser_arguments_witness :
  parseStackFrames (env := browser) oneFrameParser invariantViolation
  = Returns
      (try_catch (oneFrameParser (str "Invariant Violation at g (react.js:1:1)")
                                 (Int 2)) [])
  /\ (truthy (str "Invariant Violation at g (react.js:1:1)") = true
      \/ str "Invariant Violation at g (react.js:1:1)" = str "")
  /\ (forall stacktrace stack,
         get invariantViolation "stacktrace" = Returns stacktrace ->
         get invariantViolation "stack" = Returns stack ->
         str "Invariant Violation at g (react.js:1:1)"
         = if truthy stacktrace then stacktrace
           else if truthy stack then stack else str "")
  /\ (forall n,
         get invariantViolation "framesToPop" = Returns (number n) ->
         Int 2 = n)
  /\ (forall framesToPop message,
         get invariantViolation "framesToPop" = Returns framesToPop ->
         typeof framesToPop <> t_number ->
         get invariantViolation "message" = Returns message ->
         Int 2 = if truthy invariantViolation
                    && Regex.test (reactMinifiedRegexp (Environment := browser))
                                  (ToString (env := browser) message)
                 then Int 1 else Int 0).
Proof.
  exact (stack_parser_arguments (env := browser) oneFrameParser
           invariantViolation
           (str "Invariant Violation at g (react.js:1:1)") (Int 2)
           eq_refl eq_refl).
Defined.

(** The number of frames to pop, on three errors: the property when it is
    a number, even against the pattern; 1 for a minified message; 0 for a
    value that is falsy. *)
Example getPopSize_cases :
  getPopSize (env := browser) invariantViolation = Returns (Int 2)
  /\ getPopSize (env := browser)
       (object [("message", str "Minified React error #31; visit ...")])
     = Returns (Int 1)
  /\ getPopSize (env := browser) (str "") = Returns (Int 0).
Proof. repeat split. Qed.

Lemma exceptionFromError_of_an_error_witness :
  exists raw pop,
    rawStack typeError = Returns raw
    /\ getPopSize (env := browser) typeError = Returns pop
    /\ exceptionFromError (env := browser) oneFrameParser typeError
       = Returns
           {| type := str "TypeError"; value := str "x is not a function";
              stacktrace :=
                match try_catch (oneFrameParser raw pop) [] with
                | [] => None
                | frames => Some {| frames := Some frames |}
                end;
              mechanism := None |}.
Proof.
  apply (exceptionFromError_of_an_error (env := browser) oneFrameParser);
    [reflexivity | reflexivity | discriminate].
Defined.

Lemma eventFromUnknownInput_DOM_code_witness :
  exists event,
    eventFromUnknownInput (env := browser) None failingParser domException
                          undefined None None
    = Returns event
    /\ exists tags_,
        tags event = Some tags_
        /\ tag "DOMException.code" tags_ = Some "8".
Proof.
  apply (eventFromUnknownInput_DOM_code (env := browser) None failingParser
           _ (number (Int 8)) undefined None None);
    reflexivity.
Defined.

Lemma captureExecption_of_a_primitive_witness :
  captureExecption (env := browser) bound (str "boom") undefined None
  = ([], Throws "TypeError").
Proof.
  apply (captureExecption_of_a_primitive (env := browser) bound (str "boom")
           undefined None); reflexivity.
Defined.

Lemma handleOnError_denied_url_witness :
  handleOnError (env := browser) bound (legacy "https://cdn.example/vendor.js")
  = ([], Returns tt).
Proof.
  apply (handleOnError_denied_url (env := browser) bound
           (legacy "https://cdn.example/vendor.js")
           {| getOptions :=
               {| stackParser := oneFrameParser; attachStacktrace := None;
                  allowUrls := None; denyUrls := Some [Literal "vendor"];
                  normalizeDepth := undefined |} |}
           [Literal "vendor"]).
  - reflexivity.
  - reflexivity.
  - exists (Literal "vendor"). split; [now left|].
    now exists "https://cdn.example/", ".js".
Defined.

Lemma own_request_not_reported_witness :
  (forall e, rejectionReason e = ownRequest ->
             handleUnhandledRejection (env := browser) bound e
             = ([], Returns (boolean true)))
  /\ (forall data, data_error data = ownRequest ->
                   handleOnError (env := browser) bound data
                   = ([], Returns tt)).
Proof.
  apply (own_request_not_reported (env := browser) bound ownRequest
           (boolean true)); reflexivity.
Defined.

Lemma handleUnhandledRejection_calls_witness :
  fst (handleUnhandledRejection (env := browser) bound rejected) = []
  \/ exists event url stopped,
      rejectionEvent (env := browser) bound (rejectionReason rejected)
      = Returns event
      /\ getEventFilterUrl (set_level event "error") = Some url
      /\ (forall file, appJSFile bound = Some file ->
                       file = "" \/ includes url file = true)
      /\ (forall filter, customEventFilter bound = Some filter ->
                         filter (set_level event "error") url = true)
      /\ (stopped = [] \/ stopped = [stopImmediatePropagation])
      /\ fst (handleUnhandledRejection (env := browser) bound rejected)
         = (stopped
              ++ match hub bound with
                 | Some _ =>
                     [captureEvent
                        (browser_addExceptionMechanism
                           (set_level event "error")
                           (unhandled "onunhandledrejection"))
                        (hint_of (rejectionReason rejected))]
                 | None => []
                 end)%list.
Proof.
  exact (handleUnhandledRejection_calls (env := browser) bound rejected
           (fst (handleUnhandledRejection (env := browser) bound rejected))
           (snd (handleUnhandledRejection (env := browser) bound rejected))
           eq_refl).
Defined.

Example handleUnhandledRejection_forwards :
  fst (handleUnhandledRejection (env := browser) bound rejected)
  = [stopImmediatePropagation;
     captureEvent
       {| exception :=
           Some {| values :=
                    Some [{| type := str "TypeError";
                             value := str "x is not a function";
                             stacktrace :=
                               Some {| frames :=
                                        Some [{| filename := Some "app.js";
                                                 function := Some "f";
                                                 lineno := number (Int 10);
                                                 colno := number (Int 5);
                                                 in_app := Some true |}] |};
                             mechanism :=
                               Some [("type", str "onunhandledrejection");
                                     ("handled", boolean false)] |}] |};
          message := undefined; extra := None; tags := None;
          level := Some "error" |}
       (hint_of typeError)].
Proof. reflexivity. Qed.

Lemma handleOnError_calls_witness :
  fst (handleOnError (env := browser) bound (legacy "app.js")) = []
  \/ exists event,
      shouldCaptureError (data_error (legacy "app.js"))
        (data_filename (legacy "app.js"))
        (snd (fst (getHubOptions bound))) (snd (getHubOptions bound)) None
      = true
      /\ hub bound <> None
      /\ eventFrames event <> []
      /\ fst (handleOnError (env := browser) bound (legacy "app.js"))
         = [captureEvent
              (browser_addExceptionMechanism (set_level event "error")
                 (unhandled "onerror"))
              (hint_of (data_error (legacy "app.js")))]
      /\ snd (handleOnError (env := browser) bound (legacy "app.js"))
         = Returns tt.
Proof.
  exact (handleOnError_calls (env := browser) bound (legacy "app.js")
           (fst (handleOnError (env := browser) bound (legacy "app.js")))
           (snd (handleOnError (env := browser) bound (legacy "app.js")))
           eq_refl).
Defined.

Lemma handleOnError_without_hub_witness :
  exists error,
    handleOnError (env := browser) unbound (legacy "app.js")
    = ([], Throws error).
Proof.
  apply (handleOnError_without_hub (env := browser) unbound (legacy "app.js")
           undefined); reflexivity.
Defined.

Lemma handleOnError_string_message_witness :
  exists event,
    eventFromIncompleteOnError (env := browser)
      (str "Uncaught TypeError: x is not a function")
      (str "app.js") (number (Int 10)) (number (Int 5))
    = Returns event
    /\ handleOnError (env := browser) bound (legacy "app.js")
       = ([captureEvent
             (browser_addExceptionMechanism (set_level event "error")
                (unhandled "onerror"))
             (hint_of undefined)],
          Returns tt).
Proof.
  apply (handleOnError_string_message (env := browser) bound (legacy "app.js")
           "Uncaught TypeError: x is not a function"
           {| getClient :=
               Some {| getOptions :=
                        {| stackParser := oneFrameParser;
                           attachStacktrace := None; allowUrls := None;
                           denyUrls := Some [Literal "vendor"];
                           normalizeDepth := undefined |} |} |});
    reflexivity.
Defined.

Section PrimitiveRejections.

Context {env : Environment}.

(** X23. A rejection with a primitive for a reason is never forwarded: the
    event built for it has no frame, hence no url, and the handler returns
    without a call. That holds as well when the argument of the handler is
    itself a primitive: reading [reason] from it throws, the error is
    swallowed, and the argument stands for the reason. *)
Theorem primitive_rejection_dropped (self : MFESentry) (e : any) :
  (isPrimitive e = true -> rejectionReason e = e)
  /\ (isPrimitive (rejectionReason e) = true ->
      handleUnhandledRejection self e = ([], Returns undefined)
      /\ exists event,
          rejectionEvent self (rejectionReason e) = Returns event
          /\ getEventFilterUrl (set_level event "error") = None).
Proof.
  split.
  - destruct e; try discriminate; reflexivity.
  - intros Hprimitive. split.
    + now apply handleUnhandledRejection_primitive.
    + unfold rejectionEvent.
      destruct (getHubOptions self) as [[[parser attach] allow] deny].
      rewrite Hprimitive. eexists. split; reflexivity.
Qed.

End PrimitiveRejections.

Lemma primitive_rejection_dropped_witness :
  handleUnhandledRejection (env := browser) bound (number (Int 404))
  = ([], Returns undefined)
  /\ exists event,
      rejectionEvent (env := browser) bound (rejectionReason (number (Int 404)))
      = Returns event
      /\ getEventFilterUrl (set_level event "error") = None.
Proof.
  apply (proj2 (primitive_rejection_dropped (env := browser) bound
                  (number (Int 404)))).
  reflexivity.
Defined.

Section Rejections.

Context {env : Environment}.

(** X24. The reason that [handleUnhandledRejection] works on, case by case:
    the [reason] property of the event when it has one, else the [reason]
    of its [detail] when that is an object with one, else the event itself;
    the TypeError of [in] on a primitive event or detail is swallowed. *)
Theorem rejectionReason_cases (e : any) :
  rejectionReason e
  = match e with
    | object props | func props =>
        match lookup "reason" props with
        | Some reason => reason
        | None =>
            match lookup "detail" props with
            | Some (object detail | func detail) =>
                match lookup "reason" detail with
                | Some reason => reason
                | None => e
                end
            | _ => e
            end
        end
    | _ => e
    end.
Proof.
  unfold rejectionReason.
  destruct e as [| | | | |props|props]; try reflexivity; cbn [has bind get];
    (destruct (lookup "reason" props) as [reason|]; [reflexivity|];
     destruct (lookup "detail" props) as [detail|]; [|reflexivity];
     destruct detail as [| | | | |d|d]; try reflexivity; cbn [has bind get];
     destruct (lookup "reason" d); reflexivity).
Qed.

(** X25. The url of the event of an error is the one of the frames that the
    stack parser returns for it; there is none when the parser throws or
    returns no frame. *)
Theorem eventFromError_url (stackParser : StackParser) (ex : any) :
  nullish ex = false ->
  exists event raw pop,
    eventFromError stackParser ex = Returns event
    /\ rawStack ex = Returns raw
    /\ getPopSize ex = Returns pop
    /\ getEventFilterUrl event
       = getLastValidUrl (Some (try_catch (stackParser raw pop) [])).
Proof.
  intros Hex.
  destruct (rawStack_returns ex Hex) as [raw Hraw].
  destruct (getPopSize_returns ex) as [pop Hpop].
  destruct (and_get_returns ex "name") as [name Hname].
  destruct (extractMessage_returns ex) as [message Hmessage].
  unfold eventFromError.
  rewrite (exceptionFromError_eq stackParser ex raw name message pop
             Hraw Hpop Hname Hmessage).
  cbn [bind]. eexists; exists raw, pop. split; [reflexivity|].
  split; [exact Hraw|]. split; [exact Hpop|].
  cbv zeta. unfold getEventFilterUrl. cbn.
  now destruct (try_catch (stackParser raw pop) []).
Qed.

(** X26. When the gates are passed the rejection is forwarded: with a bound hub,
    a reason that is not an own request, an event built for it that has a
    url which contains the entry file if one is set and which the custom
    filter if one is set accepts, the handler stops the propagation when the
    event offers a function for it, captures the event once, and returns
    [undefined]. *)
Theorem rejection_forwarded
        (self : MFESentry) (e marker stop : any) (event : Event) (url : string)
        (bound_hub : Hub) :
  hub self = Some bound_hub ->
  and_get (rejectionReason e) "__sentry_own_request__" = Returns marker ->
  truthy marker = false ->
  rejectionEvent self (rejectionReason e) = Returns event ->
  getEventFilterUrl (set_level event "error") = Some url ->
  (forall file, appJSFile self = Some file ->
                file = "" \/ includes url file = true) ->
  (forall filter, customEventFilter self = Some filter ->
                  filter (set_level event "error") url = true) ->
  get e "stopImmediatePropagation" = Returns stop ->
  handleUnhandledRejection self e
  = ((match typeof stop with
      | t_function => [stopImmediatePropagation]
      | _ => []
      end
        ++ [captureEvent
              (addExceptionMechanism (set_level event "error")
                 (unhandled "onunhandledrejection"))
              (hint_of (rejectionReason e))])%list,
     Returns undefined).
Proof.
  intros Hhub Hmarker Hfalsy Hevent Hurl Hfile Hfilter Hstop.
  unfold handleUnhandledRejection. cbv zeta.
  rewrite Hmarker. cbn [after]. rewrite Hfalsy, Hevent. cbn [after].
  rewrite Hurl.
  assert (Hgate1 :
            match appJSFile self with
            | Some file => negb (String.eqb file "") && negb (includes url file)
            | None => false
            end = false).
  { destruct (appJSFile self) as [file|]; trivial.
    destruct (Hfile file eq_refl) as [->|Hin]; [reflexivity|].
    rewrite Hin. apply andb_false_r. }
  assert (Hgate2 :
            match customEventFilter self with
            | Some filter => negb (filter (set_level event "error") url)
            | None => false
            end = false).
  { destruct (customEventFilter self) as [filter|]; trivial.
    now rewrite (Hfilter filter eq_refl). }
  rewrite Hgate1, Hgate2, Hstop. cbn [after].
  unfold addMechanismAndCapture. rewrite Hhub. reflexivity.
Qed.

End Rejections.

Lemma eventFromError_url_witness :
  exists event raw pop,
    eventFromError (env := browser) oneFrameParser typeError = Returns event
    /\ rawStack typeError = Returns raw
    /\ getPopSize (env := browser) typeError = Returns pop
    /\ getEventFilterUrl event
       = getLastValidUrl (Some (try_catch (oneFrameParser raw pop) [])).
Proof.
  apply (eventFromError_url (env := browser) oneFrameParser typeError).
  reflexivity.
Defined.

Lemma rejection_forwarded_witness :
  exists event,
    rejectionEvent (env := browser) bound typeError = Returns event
    /\ handleUnhandledRejection (env := browser) bound rejected
       = ([stopImmediatePropagation;
           captureEvent
             (browser_addExceptionMechanism (set_level event "error")
                (unhandled "onunhandledrejection"))
             (hint_of typeError)],
          Returns undefined).
Proof.
  eexists. split; [reflexivity|].
  apply (rejection_forwarded (env := browser) bound rejected
           undefined (func []) _ "app.js"
           {| getClient :=
               Some {| getOptions :=
                        {| stackParser := oneFrameParser;
                           attachStacktrace := None; allowUrls := None;
                           denyUrls := Some [Literal "vendor"];
                           normalizeDepth := undefined |} |} |});
    try reflexivity.
  - intros file [= <-]. now right.
  - discriminate.
Defined.
